(** * ProfileCreator: validation, normalisation and the questionnaire loop

    A shallow embedding of [profile_creator.py].  Python text is modelled
    as a list of characters whose code points lie in U+0000..U+00FF (the
    [ascii] type read as Latin-1); the character classes below are the
    ones CPython assigns to those code points.  Integers are unbounded;
    [int] refuses literals of more than 4300 digits, CPython's default
    limit.  Console output ([print]) is not modelled;
    console and recogniser input arrive as a list of events, the clock as
    a parameter, the file system as an explicit state. *)

From Stdlib Require Import ZArith NArith List Ascii String Bool Lia DecimalString.
From stdpp Require Import gmap strings list.
Import ListNotations.

Local Open Scope bool_scope.
Local Open Scope list_scope.

(** ** Python text *)

Module Py.

Definition str := list ascii.

(** A literal. *)
Definition L (s : string) : str := list_ascii_of_string s.
Arguments L s%_string.

Definition code (c : ascii) : N := N_of_ascii c.

Definition between (lo hi : N) (c : ascii) : bool :=
  ((lo <=? code c) && (code c <=? hi))%N.

Definition is_code (n : N) (c : ascii) : bool := (code c =? n)%N.

(** [str.isspace] on one character. *)
Definition isspace (c : ascii) : bool :=
  between 9 13 c || between 28 32 c || is_code 133 c || is_code 160 c.

(** [str.isdecimal] on one character; also the regex class [\d]. *)
Definition isdecimal (c : ascii) : bool := between 48 57 c.

(** [str.isdigit] on one character: the decimal digits and the
    superscripts one, two and three. *)
Definition isdigit (c : ascii) : bool :=
  isdecimal c || is_code 178 c || is_code 179 c || is_code 185 c.

(** The regex class [\w]: alphanumeric characters and the underscore. *)
Definition isword (c : ascii) : bool :=
  between 48 57 c || between 65 90 c || is_code 95 c || between 97 122 c
  || is_code 170 c || is_code 178 c || is_code 179 c || is_code 181 c || is_code 185 c || is_code 186 c
  || between 188 190 c || between 192 214 c || between 216 246 c
  || between 248 255 c.

(** Letters only: what remains of [\w] without digits, fractions and
    the underscore. *)
Definition isalpha (c : ascii) : bool :=
  between 65 90 c || between 97 122 c || is_code 170 c || is_code 181 c || is_code 186 c
  || between 192 214 c || between 216 246 c || between 248 255 c.

Definition lower_char (c : ascii) : ascii :=
  if between 65 90 c || between 192 214 c || between 216 222 c
  then ascii_of_N (code c + 32) else c.

(** [s.lower()] *)
Definition lower (s : str) : str := map lower_char s.

Definition eqb_char (a b : ascii) : bool := Ascii.eqb a b.

Definition is_empty (s : str) : bool :=
  match s with [] => true | _ => false end.

(** [s.lstrip()], [s.rstrip()] and [s.strip()] *)
Fixpoint lstrip (s : str) : str :=
  match s with
  | [] => []
  | c :: s' => if isspace c then lstrip s' else s
  end.

Fixpoint rstrip (s : str) : str :=
  match s with
  | [] => []
  | c :: s' =>
      let r := rstrip s' in
      if isspace c && is_empty r then [] else c :: r
  end.

Definition strip (s : str) : str := rstrip (lstrip s).

(** [s.startswith(p)] *)
Fixpoint startswith (p s : str) : bool :=
  match p, s with
  | [], _ => true
  | a :: p', b :: s' => eqb_char a b && startswith p' s'
  | _ :: _, [] => false
  end.

(** [sub in s] *)
Fixpoint contains (sub s : str) : bool :=
  startswith sub s ||
  match s with
  | [] => false
  | _ :: s' => contains sub s'
  end.

(** [s.replace(old, new)] for a non-empty [old]: leftmost occurrences,
    not overlapping.  [skip] counts the characters of a matched
    occurrence that are still to be passed over. *)
Fixpoint replace_from (old new : str) (skip : nat) (s : str) : str :=
  match s with
  | [] => []
  | c :: s' =>
      match skip with
      | S k => replace_from old new k s'
      | O =>
          if startswith old s
          then new ++ replace_from old new (length old - 1) s'
          else c :: replace_from old new 0 s'
      end
  end.

(** With an empty [old], [new] is put before every character and at
    the end. *)
Definition replace (old new s : str) : str :=
  match old with
  | [] => flat_map (fun c => new ++ [c]) s ++ new
  | _ :: _ => replace_from old new 0 s
  end.

(** [s.split(sep)] for a one-character separator: never empty. *)
Fixpoint split_on (sep : ascii) (s : str) : list str :=
  match s with
  | [] => [[]]
  | c :: s' =>
      if eqb_char c sep then [] :: split_on sep s'
      else match split_on sep s' with
           | item :: items => (c :: item) :: items
           | [] => [[c]]
           end
  end.

(** [s.split()]: the maximal runs of non-space characters. *)
Fixpoint split_ws (s : str) : list str :=
  match s with
  | [] => []
  | c :: s' =>
      if isspace c then split_ws s'
      else match s' with
           | d :: _ =>
               if isspace d then [c] :: split_ws s'
               else match split_ws s' with
                    | item :: items => (c :: item) :: items
                    | [] => [[c]]
                    end
           | [] => [[c]]
           end
  end.

(** [sep.join(items)] *)
Fixpoint join (sep : str) (items : list str) : str :=
  match items with
  | [] => []
  | [item] => item
  | item :: rest => item ++ sep ++ join sep rest
  end.

(** [s.isdigit()]: at least one character, all of them digits. *)
Definition str_isdigit (s : str) : bool :=
  negb (is_empty s) && forallb isdigit s.

Definition digit_value (c : ascii) : Z := Z.of_N (code c) - 48.

(** The digits of an integer literal, single underscores allowed
    between digits; [after_digit] tells whether the previous character
    was a digit. *)
Fixpoint digits_value (acc : Z) (after_digit : bool) (s : str) : option Z :=
  match s with
  | [] => if after_digit then Some acc else None
  | c :: s' =>
      if isdecimal c then digits_value (10 * acc + digit_value c) true s'
      else if is_code 95 c && after_digit then digits_value acc false s'
      else None
  end.

(** The most digits [int] converts, as CPython sets it by default
    ([sys.int_max_str_digits]). *)
Definition int_max_str_digits : Z := 4300.

(** The digits of a literal, underscores not counted. *)
Definition digit_count (s : str) : nat := length (List.filter isdecimal s).

(** An integer literal without its sign: well formed, and with no more
    digits than the limit. *)
Definition literal_value (d : str) : option Z :=
  match digits_value 0 false d with
  | Some n =>
      if (Z.of_nat (digit_count d) <=? int_max_str_digits)%Z
      then Some n else None
  | None => None
  end.

(** [int(s)]: surrounding whitespace, an optional sign, decimal digits;
    [None] stands for [ValueError], raised for a malformed literal and
    for one with too many digits. *)
Definition int (s : str) : option Z :=
  match strip s with
  | c :: d =>
      if is_code 43 c then literal_value d
      else if is_code 45 c then option_map Z.opp (literal_value d)
      else literal_value (c :: d)
  | [] => None
  end.

(** [str(n)] for an integer. *)
Definition str_of_int (n : Z) : str :=
  list_ascii_of_string (NilEmpty.string_of_int (Z.to_int n)).

End Py.

Import Py.

(** ** Regular expressions, as [re.match] uses them *)

Module Re.

(** The fragment of the pattern language the program uses.  [Chr p] is
    a character class, [Eol] the anchor [$]. *)
Inductive regex : Type :=
| Eps
| Chr (p : ascii -> bool)
| Seq (r1 r2 : regex)
| Alt (r1 r2 : regex)
| Star (r : regex)
| Eol.

Definition Plus (r : regex) : regex := Seq r (Star r).

(** [r{n}] *)
Fixpoint Rep (n : nat) (r : regex) : regex :=
  match n with
  | O => Eps
  | S k => Seq r (Rep k r)
  end.

(** Zero or more rounds of [once], each of which has to consume
    something; [fuel] bounds the number of rounds by the length of the
    text. *)
Fixpoint star_run (once : str -> list str) (fuel : nat) (s : str) : list str :=
  s :: match fuel with
       | O => []
       | S k =>
           flat_map (star_run once k)
             (List.filter (fun t => length t <? length s) (once s))
       end.

(** [run r s]: what can be left of [s] once [r] has matched at its
    beginning, every way of matching tried. *)
Fixpoint run (r : regex) (s : str) : list str :=
  match r with
  | Eps => [s]
  | Chr p =>
      match s with
      | c :: s' => if p c then [s'] else []
      | [] => []
      end
  | Seq r1 r2 => flat_map (run r2) (run r1 s)
  | Alt r1 r2 => run r1 s ++ run r2 s
  | Star r1 => star_run (run r1) (length s) s
  | Eol =>
      match s with
      | [] => [s]
      | [c] => if is_code 10 c then [s] else []
      | _ => []
      end
  end.

(** [bool(re.match(r, s))]: the match starts at the first character,
    which is why a leading [^] adds nothing. *)
Definition matches (r : regex) (s : str) : bool :=
  match run r s with
  | [] => false
  | _ :: _ => true
  end.

End Re.

Import Re.

(** ** The program *)

Inductive exn : Type :=
| ValueError
| FileExistsError
| IsADirectoryError.

Inductive result (A : Type) : Type :=
| Ok (a : A)
| Raise (e : exn).
Arguments Ok {A} a.
Arguments Raise {A} e.

(** The values a profile field holds. *)
Inductive value : Type :=
| VNone
| VStr (s : str)
| VInt (n : Z)
| VList (items : list str).

(** A Python [dict] with text keys: the pairs in insertion order. *)
Definition dict := list (str * value).

Fixpoint dict_get (key : str) (d : dict) : option value :=
  match d with
  | [] => None
  | (k, v) :: d' => if bool_decide (k = key) then Some v else dict_get key d'
  end.

(** [d[key] = v]: an existing key keeps its place. *)
Fixpoint dict_set (key : str) (v : value) (d : dict) : dict :=
  match d with
  | [] => [(key, v)]
  | (k, w) :: d' =>
      if bool_decide (k = key) then (k, v) :: d'
      else (k, w) :: dict_set key v d'
  end.

(** [self.profile] as [__init__] leaves it. *)
Definition initial_profile : dict :=
  [ (L "name", VNone);
    (L "age", VNone);
    (L "email", VNone);
    (L "phone", VNone);
    (L "occupation", VNone);
    (L "skills", VList []);
    (L "education", VNone);
    (L "location", VNone);
    (L "created_at", VNone) ].

(** [self.questions]: field, prompt, validation type. *)
Definition questions : list (str * str * str) :=
  [ (L "name", L "What is your full name?", L "text");
    (L "age", L "What is your age?", L "number");
    (L "email", L "What is your email address?", L "email");
    (L "phone", L "What is your phone number?", L "phone");
    (L "occupation", L "What is your current occupation?", L "text");
    (L "skills", L "What are your skills? (separate with and)", L "list");
    (L "education", L "What is your highest education level?", L "text");
    (L "location", L "Where are you located?", L "text") ].

(** [[\w\.-]] *)
Definition word_dot_hyphen (c : ascii) : bool :=
  isword c || is_code 46 c || is_code 45 c.

(** [^[\w\.-]+@[\w\.-]+\.\w+$] *)
Definition email_pattern : regex :=
  Seq (Plus (Chr word_dot_hyphen))
   (Seq (Chr (is_code 64))
    (Seq (Plus (Chr word_dot_hyphen))
     (Seq (Chr (is_code 46))
      (Seq (Plus (Chr isword)) Eol)))).

(** [^\d{10}$] *)
Definition phone_pattern : regex := Seq (Rep 10 (Chr isdecimal)) Eol.

(** The five entries of [validators]. *)
Definition validate_text (x : str) : result bool := Ok (2 <=? length x).

Definition validate_number (x : str) : result bool :=
  if str_isdigit x then
    match int x with
    | Some n => Ok ((0 <=? n)%Z && (n <=? 99)%Z)
    | None => Raise ValueError
    end
  else Ok false.

Definition validate_email (x : str) : result bool :=
  Ok (matches email_pattern x).

Definition validate_phone (x : str) : result bool :=
  Ok (matches phone_pattern (replace (L " ") [] (replace (L "-") [] x))).

Definition validate_list (x : str) : result bool :=
  Ok (forallb (fun item => 0 <? length (strip item)) (split_on ","%char x)).

(** [_validate_input] *)
Definition validate_input (field_type value : str) : result bool :=
  if is_empty value || is_empty (strip value) then Ok false
  else
    let value := strip value in
    if bool_decide (field_type = L "text") then validate_text value
    else if bool_decide (field_type = L "number") then validate_number value
    else if bool_decide (field_type = L "email") then validate_email value
    else if bool_decide (field_type = L "phone") then validate_phone value
    else if bool_decide (field_type = L "list") then validate_list value
    else Ok true.

(** The three rewrites of a transcript in [get_voice_input]. *)
Definition normalize_age (result : str) : str :=
  let result := lower result in
  let nums := List.filter (fun char => isdigit char) result in
  if negb (is_empty nums) then nums else result.

Definition normalize_email (result : str) : str :=
  let result := lower result in
  let result := replace (L "the rate") [] result in
  let result := replace (L " at ") (L "@") result in
  let result := replace (L "at rate") (L "@") result in
  let result := replace (L " dot ") (L ".") result in
  let result := replace (L "dot") (L ".") result in
  join [] (split_ws result).

Definition normalize_skills (result : str) : str :=
  let result := lower result in
  let result := replace (L " and ") (L ", ") result in
  let result := replace (L " comma ") (L ", ") result in
  join (L ", ") (map strip (split_on ","%char result)).

(** The [if]/[elif] chain on the prompt. *)
Definition smart_text (prompt result : str) : str :=
  if contains (L "age") (lower prompt) then normalize_age result
  else if contains (L "email") (lower prompt) then normalize_email result
  else if contains (L "skills") (lower prompt) then normalize_skills result
  else result.

(** What the recogniser does with one utterance. *)
Inductive recognition : Type :=
| Transcript (text : str)
| WaitTimeoutError
| UnknownValueError
| RequestError.

(** What the outside world supplies: a line typed at the console, or the
    outcome of one listening attempt. *)
Inductive event : Type :=
| Input (line : str)
| Listen (r : recognition).

(** [get_text_input]; [None] when no typed line is next. *)
Definition get_text_input (prompt : str) (events : list event)
  : option (str * list event) :=
  match events with
  | Input line :: rest => Some (strip line, rest)
  | _ => None
  end.

(** [get_voice_input]; [retries] is the number of attempts left. *)
Fixpoint get_voice_input (prompt : str) (retries : nat) (events : list event)
  : option (str * list event) :=
  match retries with
  | O => get_text_input prompt events
  | S more =>
      match events with
      | Listen (Transcript text) :: Input reply :: rest =>
          let result := smart_text prompt text in
          if startswith (L "y") (lower reply) then Some (result, rest)
          else get_voice_input prompt more rest
      | Listen WaitTimeoutError :: rest => get_voice_input prompt more rest
      | Listen UnknownValueError :: rest => get_voice_input prompt more rest
      | Listen RequestError :: rest => get_text_input prompt rest
      | _ => None
      end
  end.

(** The state of [create_profile] inside its loops: the position in
    [self.questions] and [self.profile]. *)
Record state : Type := State { index : nat; profile : dict }.

Definition initial_state : state := State 0 initial_profile.

(** The shape in which a validated answer is stored; [None] when [int]
    raises. *)
Definition coerce (field answer : str) : option value :=
  if bool_decide (field = L "skills") then
    Some (VList (map strip (split_on ","%char answer)))
  else if bool_decide (field = L "age") then
    option_map VInt (int answer)
  else Some (VStr answer).

(** The body of [while True] once the answer is there: [Some] is the
    profile at [break], [None] another round.  Whatever is raised is
    caught by [except Exception] and leaves the profile as it was. *)
Definition answer_question (q : str * str * str) (answer : str) (p : dict)
  : option dict :=
  let '(field, _, field_type) := q in
  match validate_input field_type answer with
  | Ok true =>
      match coerce field answer with
      | Some v => Some (dict_set field v p)
      | None => None
      end
  | Ok false => None
  | Raise _ => None
  end.

(** One acquired answer: the same question again, or the next one. *)
Definition step (st : state) (answer : str) : state :=
  match nth_error questions (index st) with
  | None => st
  | Some q =>
      match answer_question q answer (profile st) with
      | Some p => State (S (index st)) p
      | None => st
      end
  end.

Definition acquire (use_voice : bool) (question : str) (events : list event)
  : option (str * list event) :=
  if use_voice then get_voice_input question 3 events
  else get_text_input question events.

(** The [for] loop with its inner [while True]; every round takes at
    least one event, so [fuel] can be the number of events. *)
Fixpoint ask (fuel : nat) (use_voice : bool) (st : state) (events : list event)
  : option state :=
  match nth_error questions (index st) with
  | None => Some st
  | Some (_, question, _) =>
      match fuel with
      | O => None
      | S k =>
          match acquire use_voice question events with
          | Some (answer, rest) => ask k use_voice (step st answer) rest
          | None => None
          end
      end
  end.

(** ** The record store *)

(** Directories, and regular files with their text. *)
Record filesystem : Type :=
  Filesystem { dirs : gset str; files : gmap str str }.

(** [Path.mkdir(exist_ok=True)] *)
Definition mkdir (path : str) (fs : filesystem) : result filesystem :=
  match files fs !! path with
  | Some _ => Raise FileExistsError
  | None => Ok (Filesystem ({[ path ]} ∪ dirs fs) (files fs))
  end.

(** [open(path, 'w')], one [write], [close]. *)
Definition write_text (path text : str) (fs : filesystem) : result filesystem :=
  if bool_decide (path ∈ dirs fs) then Raise IsADirectoryError
  else Ok (Filesystem (dirs fs) (<[ path := text ]> (files fs))).

Definition dquote : ascii := ascii_of_N 34.
Definition newline : ascii := ascii_of_N 10.
Definition backslash : ascii := ascii_of_N 92.

Definition hex_digit (n : N) : ascii :=
  if (n <? 10)%N then ascii_of_N (48 + n) else ascii_of_N (87 + n).

(** [json.encoder.ESCAPE_DCT] with [ensure_ascii=False]. *)
Definition escape_char (c : ascii) : str :=
  if is_code 34 c then [backslash; dquote]
  else if is_code 92 c then [backslash; backslash]
  else if is_code 8 c then backslash :: L "b"
  else if is_code 12 c then backslash :: L "f"
  else if is_code 10 c then backslash :: L "n"
  else if is_code 13 c then backslash :: L "r"
  else if is_code 9 c then backslash :: L "t"
  else if (code c <? 32)%N then
    backslash :: L "u00" ++ [hex_digit (code c / 16); hex_digit (code c mod 16)]
  else [c].

Definition json_string (s : str) : str :=
  [dquote] ++ flat_map escape_char s ++ [dquote].

(** A line break followed by the indentation of [level], two spaces a
    level. *)
Definition newline_indent (level : nat) : str :=
  newline :: repeat " "%char (2 * level).

Definition json_list (level : nat) (items : list str) : str :=
  match items with
  | [] => L "[]"
  | _ :: _ =>
      L "[" ++ newline_indent (S level)
      ++ join (L "," ++ newline_indent (S level)) (map json_string items)
      ++ newline_indent level ++ L "]"
  end.

Definition json_value (level : nat) (v : value) : str :=
  match v with
  | VNone => L "null"
  | VStr s => json_string s
  | VInt n => str_of_int n
  | VList items => json_list level items
  end.

Definition json_item (kv : str * value) : str :=
  json_string (fst kv) ++ L ": " ++ json_value 1 (snd kv).

(** [json.dump(d, f, indent=2, ensure_ascii=False)] *)
Definition json_dump (d : dict) : str :=
  match d with
  | [] => L "{}"
  | _ :: _ =>
      L "{" ++ newline_indent 1
      ++ join (L "," ++ newline_indent 1) (map json_item d)
      ++ newline_indent 0 ++ L "}"
  end.

Definition default_filename : str := L "user_profile.json".

(** [save_profile], for a relative [filename]. *)
Definition save_profile (p : dict) (filename : str) (fs : filesystem)
  : result filesystem :=
  let output_dir := L "profiles" in
  match mkdir output_dir fs with
  | Ok fs1 =>
      let filepath := output_dir ++ L "/" ++ filename in
      write_text filepath (json_dump p) fs1
  | Raise e => Raise e
  end.

(** [create_profile]: the mode, the questions, the time stamp, the file.
    [None] when the events end before the last question is answered;
    otherwise the profile and what [save_profile] did. *)
Definition create_profile (events : list event) (now : str) (fs : filesystem)
  : option (dict * result filesystem) :=
  match events with
  | Input reply :: rest =>
      let use_voice := startswith (L "y") (lower reply) in
      match ask (length rest) use_voice initial_state rest with
      | Some st =>
          let p := dict_set (L "created_at") (VStr now) (profile st) in
          Some (p, save_profile p default_filename fs)
      | None => None
      end
  | _ => None
  end.

(** [fold_left step] over the answers the acquirer returned. *)
Definition run_answers (st : state) (answers : list str) : state :=
  fold_left step answers st.

(** ** Notions the statements below use *)

(** The value of a run of decimal digits. *)
Definition decimal_value (s : str) : Z :=
  fold_left (fun acc c => (10 * acc + digit_value c)%Z) s 0%Z.

(** What [validate_email] accepts: a non-empty run of word characters,
    dots and hyphens, an at sign, another such run, a dot, a non-empty
    run of word characters. *)
Definition email_shape (x : str) : Prop :=
  exists local domain suffix : str,
    x = local ++ L "@" ++ domain ++ L "." ++ suffix
    /\ local <> [] /\ domain <> [] /\ suffix <> []
    /\ forallb word_dot_hyphen local = true
    /\ forallb word_dot_hyphen domain = true
    /\ forallb isword suffix = true.

(** The pattern as the specification words it: word and dot characters
    on each side of the at sign, an alphabetic suffix after the last
    dot. *)
Definition word_or_dot (c : ascii) : bool := isword c || is_code 46 c.

Definition spec_email_shape (x : str) : Prop :=
  exists local domain suffix : str,
    x = local ++ L "@" ++ domain ++ L "." ++ suffix
    /\ local <> [] /\ domain <> [] /\ suffix <> []
    /\ forallb word_or_dot local = true
    /\ forallb word_or_dot domain = true
    /\ forallb isalpha suffix = true.

(** The email rewrite with the order the specification asks for: the
    longer [at rate] before the bare [ at ]. *)
Definition normalize_email_longest_first (result : str) : str :=
  let result := lower result in
  let result := replace (L "the rate") [] result in
  let result := replace (L "at rate") (L "@") result in
  let result := replace (L " at ") (L "@") result in
  let result := replace (L " dot ") (L ".") result in
  let result := replace (L "dot") (L ".") result in
  join [] (split_ws result).

(** The last step of the skills rewrite: split on commas, trim, join. *)
Definition comma_list (s : str) : str :=
  join (L ", ") (map strip (split_on ","%char s)).

(** The events of one voice attempt that ends without an answer and
    without a service error. *)
Inductive failed_attempt : list event -> Prop :=
| failed_timeout : failed_attempt [Listen WaitTimeoutError]
| failed_unknown : failed_attempt [Listen UnknownValueError]
| failed_rejected text reply :
    startswith (L "y") (lower reply) = false ->
    failed_attempt [Listen (Transcript text); Input reply].

(** An answer the current question does not accept. *)
Definition rejected (st : state) (answer : str) : Prop :=
  forall field question field_type,
    nth_error questions (index st) = Some (field, question, field_type) ->
    validate_input field_type answer <> Ok true.

(** The lines of a document, and the keys that open a line at the first
    level of indentation. *)
Definition lines (doc : str) : list str := split_on newline doc.

Fixpoint until_quote (s : str) : str :=
  match s with
  | [] => []
  | c :: s' => if is_code 34 c then [] else c :: until_quote s'
  end.

Definition key_of_line (line : str) : option str :=
  match line with
  | a :: b :: c :: rest =>
      if is_code 32 a && is_code 32 b && is_code 34 c
      then Some (until_quote rest) else None
  | _ => None
  end.

Definition top_level_keys (doc : str) : list str :=
  omap key_of_line (lines doc).

(** Characters [json_string] leaves as they are. *)
Definition plain (c : ascii) : bool :=
  negb (is_code 34 c || is_code 92 c || (code c <? 32)%N).

(** Characters [lower] leaves as they are. *)
Definition is_lower (c : ascii) : bool := eqb_char (lower_char c) c.

(** Anything but the separator. *)
Definition other_than (sep c : ascii) : bool := negb (eqb_char c sep).

(** The two opening lines of [_validate_input] around one validator. *)
Definition guarded (check : str -> result bool) (value : str) : result bool :=
  if is_empty value || is_empty (strip value) then Ok false
  else check (strip value).

(** [s] with every [c] taken out. *)
Definition without (c : ascii) (s : str) : str :=
  List.filter (fun x => negb (eqb_char c x)) s.

(** [v] is what one of [answers] becomes once it has passed the check
    of [field_type]. *)
Definition stored_by (field field_type : str) (answers : list str) (v : value)
  : Prop :=
  exists a, In a answers /\ validate_input field_type a = Ok true
            /\ coerce field a = Some v.

(** What holds of the loop state after the answers so far: questions
    before the current one hold a validated answer, the others what
    [__init__] put there, and the time stamp is not set. *)
Definition wizard_invariant (answers : list str) (st : state) : Prop :=
  index st <= length questions
  /\ map fst (profile st) = map fst initial_profile
  /\ dict_get (L "created_at") (profile st) = Some VNone
  /\ forall i field question field_type,
       nth_error questions i = Some (field, question, field_type) ->
       if i <? index st
       then exists v, dict_get field (profile st) = Some v
                      /\ stored_by field field_type answers v
       else dict_get field (profile st) = dict_get field initial_profile.


(** A session in text mode, with one refused age and a phone number
    typed with hyphens. *)
Definition jane_session : list event :=
  map Input
    [ L "n"; L "Jane Doe"; L "twenty nine"; L "29"; L "jane@x.com";
      L "555-123-4567"; L "Engineer"; L "python, go"; L "BSc"; L "NYC" ].

Definition empty_filesystem : filesystem := Filesystem ∅ ∅.

Definition jane_time : str := L "2026-11-03T10:15:00".

Definition jane_profile : dict :=
  [ (L "name", VStr (L "Jane Doe"));
    (L "age", VInt 29);
    (L "email", VStr (L "jane@x.com"));
    (L "phone", VStr (L "555-123-4567"));
    (L "occupation", VStr (L "Engineer"));
    (L "skills", VList [L "python"; L "go"]);
    (L "education", VStr (L "BSc"));
    (L "location", VStr (L "NYC"));
    (L "created_at", VStr jane_time) ].

(** One digit more than [int] converts. *)
Definition long_zeros : str := repeat "0"%char 4301.

(** The listening attempts among some events. *)
Definition is_listen (e : event) : bool :=
  match e with
  | Listen _ => true
  | Input _ => false
  end.

Definition count_listens (events : list event) : nat :=
  length (List.filter is_listen events).

(** Where [save_profile] writes for a given [filename]. *)
Definition path_of (filename : str) : str := L "profiles" ++ L "/" ++ filename.


(** * Facts *)

(** ** Characters *)

Ltac each_char c :=
  destruct c as [[] [] [] [] [] [] [] []]; vm_compute; try reflexivity;
  try discriminate; try tauto.

Section Characters.

Lemma is_lower_lower_char c : is_lower (lower_char c) = true.
Proof. each_char c. Qed.

Lemma isdigit_lower_char c : isdigit (lower_char c) = isdigit c.
Proof. each_char c. Qed.




Lemma eqb_char_eq a b : eqb_char a b = true <-> a = b.
Proof. apply Ascii.eqb_eq. Qed.

Lemma eqb_char_refl a : eqb_char a a = true.
Proof. apply Ascii.eqb_refl. Qed.

Lemma is_code_eq n c : is_code n c = true -> c = ascii_of_N n.
Proof.
  unfold is_code, code. intros H. apply N.eqb_eq in H.
  rewrite <- H. symmetry. apply ascii_N_embedding.
Qed.

End Characters.

(** ** Trimming *)

Section Trimming.

Lemma lstrip_head s :
  lstrip s = [] \/ exists c t, lstrip s = c :: t /\ isspace c = false.
Proof.
  induction s as [|c s IH]; simpl; [now left|].
  destruct (isspace c) eqn:E; [exact IH|].
  right. now exists c, s.
Qed.

Lemma rstrip_idem s : rstrip (rstrip s) = rstrip s.
Proof.
  induction s as [|c s IH]; simpl; [reflexivity|].
  destruct (isspace c && is_empty (rstrip s)) eqn:E; [reflexivity|].
  simpl. now rewrite IH, E.
Qed.

Lemma rstrip_cons c s : isspace c = false -> rstrip (c :: s) = c :: rstrip s.
Proof. intros H. simpl. now rewrite H. Qed.

Lemma strip_idem s : strip (strip s) = strip s.
Proof.
  unfold strip. destruct (lstrip_head s) as [E | (c & t & E & Hc)]; rewrite E.
  - reflexivity.
  - rewrite (rstrip_cons _ _ Hc).
    change (lstrip (c :: rstrip t))
      with (if isspace c then lstrip (rstrip t) else c :: rstrip t).
    rewrite Hc, (rstrip_cons _ _ Hc), rstrip_idem. reflexivity.
Qed.

Lemma forallb_lstrip p s : forallb p s = true -> forallb p (lstrip s) = true.
Proof.
  induction s as [|c s IH]; simpl; [trivial|].
  intros H. destruct (isspace c); [|exact H].
  apply andb_prop in H. now apply IH.
Qed.

Lemma forallb_rstrip p s : forallb p s = true -> forallb p (rstrip s) = true.
Proof.
  induction s as [|c s IH]; simpl; [trivial|].
  intros H. apply andb_prop in H. destruct H as [Hc Hs].
  destruct (isspace c && is_empty (rstrip s)); [reflexivity|].
  simpl. now rewrite Hc, IH.
Qed.

Lemma forallb_strip p s : forallb p s = true -> forallb p (strip s) = true.
Proof. intros H. now apply forallb_rstrip, forallb_lstrip. Qed.

(** What is left after trimming does not end in white space. *)
Lemma rstrip_last s w c : rstrip s = w ++ [c] -> isspace c = false.
Proof.
  revert w. induction s as [|d s IH]; simpl; intros w H.
  - now destruct w.
  - destruct (isspace d && is_empty (rstrip s)) eqn:E.
    + now destruct w.
    + destruct w as [|e w]; simpl in H.
      * injection H as -> Hr. rewrite Hr in E. simpl in E.
        now rewrite andb_true_r in E.
      * injection H as -> Hr. now apply (IH w).
Qed.

Lemma strip_last s w c : strip s = w ++ [c] -> isspace c = false.
Proof. apply rstrip_last. Qed.

End Trimming.

(** ** Splitting and joining *)

Section Splitting.

Variable sep : ascii.

Lemma split_on_not_nil s : split_on sep s <> [].
Proof.
  destruct s as [|c s]; simpl; [discriminate|].
  destruct (eqb_char c sep); [discriminate|].
  destruct (split_on sep s); discriminate.
Qed.

Lemma split_on_cons_other c s :
  eqb_char c sep = false ->
  exists item items,
    split_on sep s = item :: items
    /\ split_on sep (c :: s) = (c :: item) :: items.
Proof.
  intros H. simpl. rewrite H.
  destruct (split_on sep s) as [|item items] eqn:E.
  - now destruct (split_on_not_nil s).
  - now exists item, items.
Qed.

Lemma split_on_free s :
  forallb (other_than sep) s = true -> split_on sep s = [s].
Proof.
  induction s as [|c s IH]; simpl; [reflexivity|].
  intros H. apply andb_prop in H. destruct H as [Hc Hs].
  unfold other_than in Hc. apply negb_true_iff in Hc.
  rewrite Hc, (IH Hs). reflexivity.
Qed.

Lemma split_on_items_free s :
  Forall (fun item => forallb (other_than sep) item = true) (split_on sep s).
Proof.
  induction s as [|c s IH]; simpl; [repeat constructor|].
  destruct (eqb_char c sep) eqn:E.
  - constructor; [reflexivity | exact IH].
  - destruct (split_on sep s) as [|item items]; [repeat constructor|].
    + simpl. unfold other_than. now rewrite E.
    + inversion IH as [|? ? Hitem Hitems]; subst.
      constructor; [|exact Hitems].
      simpl. unfold other_than at 1. now rewrite E.
Qed.

Lemma split_on_forallb p s :
  forallb p s = true ->
  Forall (fun item => forallb p item = true) (split_on sep s).
Proof.
  induction s as [|c s IH]; simpl; [repeat constructor|].
  intros H. apply andb_prop in H. destruct H as [Hc Hs].
  specialize (IH Hs).
  destruct (eqb_char c sep).
  - constructor; [reflexivity | exact IH].
  - destruct (split_on sep s) as [|item items].
    + repeat constructor. simpl. now rewrite Hc.
    + inversion IH as [|? ? Hitem Hitems]; subst.
      constructor; [|exact Hitems]. simpl. now rewrite Hc, Hitem.
Qed.

(** A separator ends the item it follows. *)
Lemma split_on_app a b :
  split_on sep (a ++ sep :: b) = split_on sep a ++ split_on sep b.
Proof.
  induction a as [|c a IH]; simpl.
  - now rewrite eqb_char_refl.
  - destruct (eqb_char c sep); [now rewrite IH|].
    rewrite IH.
    destruct (split_on sep a) as [|item items] eqn:E; [|reflexivity].
    now destruct (split_on_not_nil a).
Qed.

End Splitting.

Section Joining.

Lemma join_cons sep item next rest :
  join sep (item :: next :: rest) = item ++ sep ++ join sep (next :: rest).
Proof. reflexivity. Qed.

Lemma forallb_join p sep items :
  forallb p sep = true ->
  Forall (fun item => forallb p item = true) items ->
  forallb p (join sep items) = true.
Proof.
  intros Hsep. induction 1 as [|item rest Hitem Hrest IH]; [reflexivity|].
  destruct rest as [|next rest]; [exact Hitem|].
  rewrite join_cons, !forallb_app, Hitem, Hsep. exact IH.
Qed.

(** Comma-free items come back from the joined text, all but the first
    with the blank of the separator in front. *)
Lemma split_on_join_comma item items :
  Forall (fun i => forallb (other_than ","%char) i = true) (item :: items) ->
  split_on ","%char (join (L ", ") (item :: items))
  = item :: map (fun i => " "%char :: i) items.
Proof.
  revert item. induction items as [|next rest IH]; intros item H.
  - simpl. inversion H; subst. now apply split_on_free.
  - inversion H as [|? ? Hitem Hrest]; subst.
    rewrite join_cons.
    change (L ", " ++ join (L ", ") (next :: rest))
      with (","%char :: " "%char :: join (L ", ") (next :: rest)).
    rewrite split_on_app, (split_on_free _ _ Hitem).
    destruct (split_on_cons_other ","%char " "%char
                (join (L ", ") (next :: rest)) eq_refl)
      as (i & is_ & E1 & E2).
    rewrite E2. rewrite (IH next Hrest) in E1.
    injection E1 as <- <-. reflexivity.
Qed.

End Joining.

(** ** Replacing *)

Section Replacing.

Lemma replace_from_absent old new s :
  contains old s = false -> replace_from old new 0 s = s.
Proof.
  induction s as [|c s IH]; simpl; [reflexivity|].
  intros H. apply orb_false_iff in H. destruct H as [H1 H2].
  change (match old with
          | [] => true
          | a :: p' => eqb_char a c && startswith p' s
          end) with (startswith old (c :: s)).
  rewrite H1, (IH H2). reflexivity.
Qed.

Lemma replace_absent old new s :
  contains old s = false -> replace old new s = s.
Proof.
  destruct old as [|a old]; [now destruct s|].
  apply replace_from_absent.
Qed.

Lemma forallb_replace_from p old new s k :
  forallb p new = true -> forallb p s = true ->
  forallb p (replace_from old new k s) = true.
Proof.
  intros Hnew. revert k. induction s as [|c s IH]; intros k H; [reflexivity|].
  simpl in H. apply andb_prop in H. destruct H as [Hc Hs].
  simpl. destruct k as [|k]; [|now apply IH].
  destruct (startswith old (c :: s)).
  - rewrite forallb_app, Hnew. now apply IH.
  - simpl. rewrite Hc. now apply IH.
Qed.

Lemma forallb_replace p old new s :
  old <> [] -> forallb p new = true -> forallb p s = true ->
  forallb p (replace old new s) = true.
Proof.
  destruct old as [|a old]; [congruence|]. intros _.
  apply forallb_replace_from.
Qed.

(** Replacing one character by nothing filters it out. *)
Lemma replace_char_nil c s :
  replace [c] [] s = List.filter (fun x => negb (eqb_char c x)) s.
Proof.
  unfold replace. induction s as [|x s IH]; [reflexivity|].
  simpl. rewrite andb_true_r.
  destruct (eqb_char c x); simpl; now rewrite IH.
Qed.

End Replacing.

(** ** Lower case *)

Section LowerCase.

Lemma lower_is_lower s : forallb is_lower (lower s) = true.
Proof.
  induction s as [|c s IH]; [reflexivity|].
  simpl. now rewrite is_lower_lower_char, IH.
Qed.

Lemma lower_fixed s : forallb is_lower s = true -> lower s = s.
Proof.
  induction s as [|c s IH]; [reflexivity|].
  simpl. intros H. apply andb_prop in H. destruct H as [Hc Hs].
  apply eqb_char_eq in Hc. now rewrite Hc, (IH Hs).
Qed.

Lemma filter_isdigit_lower s :
  forallb (fun c => negb (isdigit c)) s = true ->
  List.filter (fun char => isdigit char) (lower s) = [].
Proof.
  induction s as [|c s IH]; [reflexivity|].
  simpl. intros H. apply andb_prop in H. destruct H as [Hc Hs].
  rewrite isdigit_lower_char. apply negb_true_iff in Hc.
  rewrite Hc. now apply IH.
Qed.

Lemma no_digit_lower s :
  forallb (fun c => negb (isdigit c)) s = true ->
  forallb (fun c => negb (isdigit c)) (lower s) = true.
Proof.
  induction s as [|c s IH]; [reflexivity|].
  simpl. intros H. apply andb_prop in H. destruct H as [Hc Hs].
  now rewrite isdigit_lower_char, Hc, IH.
Qed.

End LowerCase.

(** ** The validator, one field type at a time *)

Section Dispatch.

Lemma validate_input_text x :
  validate_input (L "text") x = guarded validate_text x.
Proof. reflexivity. Qed.

Lemma validate_input_number x :
  validate_input (L "number") x = guarded validate_number x.
Proof. reflexivity. Qed.

Lemma validate_input_email x :
  validate_input (L "email") x = guarded validate_email x.
Proof. reflexivity. Qed.

Lemma validate_input_phone x :
  validate_input (L "phone") x = guarded validate_phone x.
Proof. reflexivity. Qed.

Lemma validate_input_list x :
  validate_input (L "list") x = guarded validate_list x.
Proof. reflexivity. Qed.

Lemma is_empty_false s : is_empty s = false <-> s <> [].
Proof. destruct s; simpl; split; congruence. Qed.

(** The guard lets exactly the answers through whose trimmed form is
    not empty. *)
Lemma guarded_nonempty check x :
  strip x <> [] -> guarded check x = check (strip x).
Proof.
  intros H. unfold guarded.
  destruct x as [|c x]; [now destruct H|].
  apply is_empty_false in H. now rewrite H.
Qed.

Lemma guarded_empty check x : strip x = [] -> guarded check x = Ok false.
Proof.
  intros H. unfold guarded. rewrite H. simpl. now rewrite orb_true_r.
Qed.

End Dispatch.

(** ** The rewrites of a transcript *)

Section Normalisers.

Lemma trimmed_items s :
  Forall (fun i => strip i = i /\ forallb (other_than ","%char) i = true)
    (map strip (split_on ","%char s)).
Proof.
  apply Forall_map.
  eapply Forall_impl; [apply split_on_items_free|].
  intros item H. simpl. split; [apply strip_idem | now apply forallb_strip].
Qed.

Lemma map_strip_blank items :
  map strip (map (fun i => " "%char :: i) items) = map strip items.
Proof.
  induction items as [|i items IH]; [reflexivity|].
  simpl. rewrite IH. f_equal.
Qed.

Lemma map_strip_fixed items :
  Forall (fun i => strip i = i) items -> map strip items = items.
Proof. induction 1 as [|i items H _ IH]; simpl; congruence. Qed.

(** The comma list is a fixed point of its own construction. *)
Lemma comma_list_idem s : comma_list (comma_list s) = comma_list s.
Proof.
  unfold comma_list.
  pose proof (trimmed_items s) as H.
  destruct (map strip (split_on ","%char s)) as [|item items] eqn:E.
  - destruct (split_on ","%char s) eqn:E'; [|discriminate].
    now destruct (split_on_not_nil ","%char s).
  - rewrite split_on_join_comma.
    + change (map strip (item :: map (fun i => " "%char :: i) items))
        with (strip item :: map strip (map (fun i => " "%char :: i) items)).
      rewrite map_strip_blank.
      change (strip item :: map strip items) with (map strip (item :: items)).
      rewrite map_strip_fixed; [reflexivity|].
      eapply Forall_impl; [exact H|]. now intros i [Hi _].
    + eapply Forall_impl; [exact H|]. now intros i [_ Hi].
Qed.

Lemma comma_list_is_lower s :
  forallb is_lower s = true -> forallb is_lower (comma_list s) = true.
Proof.
  intros H. unfold comma_list. apply forallb_join; [reflexivity|].
  apply Forall_map.
  eapply Forall_impl; [apply (split_on_forallb _ _ _ H)|].
  intros item Hitem. now apply forallb_strip.
Qed.

Lemma normalize_skills_is_lower s :
  forallb is_lower (normalize_skills s) = true.
Proof.
  unfold normalize_skills. apply comma_list_is_lower.
  apply forallb_replace; [discriminate | reflexivity |].
  apply forallb_replace; [discriminate | reflexivity |].
  apply lower_is_lower.
Qed.

Lemma normalize_skills_comma_list s :
  normalize_skills s
  = comma_list (replace (L " comma ") (L ", ")
                  (replace (L " and ") (L ", ") (lower s))).
Proof. reflexivity. Qed.

Lemma normalize_age_without_digits t :
  forallb (fun c => negb (isdigit c)) t = true -> normalize_age t = lower t.
Proof.
  intros H. unfold normalize_age. now rewrite (filter_isdigit_lower _ H).
Qed.

Lemma validate_number_without_digits v :
  forallb (fun c => negb (isdigit c)) v = true ->
  validate_input (L "number") v = Ok false.
Proof.
  intros H. rewrite validate_input_number.
  destruct (strip v) as [|c w] eqn:E; [now apply guarded_empty|].
  rewrite guarded_nonempty by (rewrite E; discriminate).
  rewrite E. unfold validate_number, str_isdigit.
  apply (forallb_strip _) in H. rewrite E in H. simpl in H.
  apply andb_prop in H. destruct H as [Hc _].
  apply negb_true_iff in Hc. simpl. now rewrite Hc.
Qed.

End Normalisers.

Section Claims_on_normalisers.

(** C1, as stated, fails: a transcript without digits is not rewritten
    to the empty text. *)
Lemma C1_age_without_digits_not_empty :
  ~ (forall t : str,
       forallb (fun c => negb (isdigit c)) t = true -> normalize_age t = []).
Proof.
  intros H. specialize (H (L "I am twenty five years old") eq_refl).
  vm_compute in H. discriminate.
Qed.

(** C1, amended: for every transcript answering the age question that
    contains no digit characters, the age rewrite returns the transcript
    in lower case (it is replaced only when there are digits), and that
    text fails number validation. *)
Theorem C1_age_without_digits (t : str) :
  forallb (fun c => negb (isdigit c)) t = true ->
  normalize_age t = lower t
  /\ validate_input (L "number") (normalize_age t) = Ok false.
Proof.
  intros H. rewrite (normalize_age_without_digits _ H). split; [reflexivity|].
  apply validate_number_without_digits. now apply no_digit_lower.
Qed.

Lemma C1_age_without_digits_witness :
  normalize_age (L "I am twenty five years old")
  = L "i am twenty five years old"
  /\ validate_input (L "number")
       (normalize_age (L "I am twenty five years old")) = Ok false.
Proof.
  apply (C1_age_without_digits (L "I am twenty five years old")).
  reflexivity.
Defined.

(** C2, as stated, fails: the skills rewrite applied to its own output
    can change it again. *)
Lemma C2_skills_not_idempotent :
  ~ (forall s : str,
       normalize_skills (normalize_skills s) = normalize_skills s).
Proof.
  intros H. specialize (H (L "a,and b")). vm_compute in H. discriminate.
Qed.

(** C2, amended: whenever the output of the skills rewrite contains
    neither the separator word [ and ] nor [ comma ], applying the
    rewrite to that output gives it back unchanged. *)
Theorem C2_skills_idempotent (s : str) :
  contains (L " and ") (normalize_skills s) = false ->
  contains (L " comma ") (normalize_skills s) = false ->
  normalize_skills (normalize_skills s) = normalize_skills s.
Proof.
  intros Hand Hcomma.
  rewrite (normalize_skills_comma_list (normalize_skills s)).
  rewrite (lower_fixed _ (normalize_skills_is_lower s)).
  rewrite (replace_absent _ _ _ Hand), (replace_absent _ _ _ Hcomma).
  rewrite normalize_skills_comma_list. apply comma_list_idem.
Qed.

Lemma C2_skills_idempotent_witness :
  normalize_skills (normalize_skills (L "Python and Go comma rust"))
  = normalize_skills (L "Python and Go comma rust").
Proof.
  apply (C2_skills_idempotent (L "Python and Go comma rust")); reflexivity.
Defined.

(** C5: the code replaces the bare [ at ] before [at rate], so a
    transcript that says [at rate] between blanks keeps the word
    [rate]; with the longer text replaced first, as the claim has it,
    the address comes out right. *)
Theorem C5_at_rate_after_bare_at :
  normalize_email (L "john at rate example dot com")
  = L "john@rateexample.com"
  /\ normalize_email_longest_first (L "john at rate example dot com")
     = L "john@example.com"
  /\ normalize_email (L "john at example dot com") = L "john@example.com".
Proof. repeat split; reflexivity. Qed.

End Claims_on_normalisers.

(** ** Numbers *)

Section Numbers.








(** C6, as stated, fails: a run of 4301 zeros is made of digits and has
    the value 0, but [int] refuses it and the validator raises. *)
Lemma C6_long_digit_run :
  ~ (forall x : str,
       validate_input (L "number") x = Ok true <->
       strip x <> [] /\ forallb isdecimal (strip x) = true
       /\ (0 <= decimal_value (strip x) <= 99)%Z).
Proof.
  intros H. destruct (H long_zeros) as [_ H2].
  assert (Hv : validate_input (L "number") long_zeros = Raise ValueError)
    by (vm_compute; reflexivity).
  rewrite Hv in H2. enough (Raise ValueError = Ok true) by discriminate.
  apply H2. split; [|split].
  - intros E. apply (f_equal (@length ascii)) in E. vm_compute in E.
    discriminate.
  - vm_compute. reflexivity.
  - split; vm_compute; discriminate.
Qed.



End Numbers.

(** ** Matching *)

Section Matching.

Lemma run_chr p s rest :
  In rest (run (Chr p) s) <-> exists c, s = c :: rest /\ p c = true.
Proof.
  destruct s as [|c s]; simpl.
  - split; [tauto | now intros (c & H & _)].
  - destruct (p c) eqn:E; simpl.
    + split.
      * intros [<- | []]. now exists c.
      * intros (d & H & _). injection H as _ ->. now left.
    + split; [tauto|]. intros (d & H & Hd). injection H as <- _.
      congruence.
Qed.

Lemma run_seq r1 r2 s rest :
  In rest (run (Seq r1 r2) s) <->
  exists mid, In mid (run r1 s) /\ In rest (run r2 mid).
Proof. simpl. apply in_flat_map. Qed.

Lemma run_eol s rest :
  In rest (run Eol s) <-> rest = s /\ (s = [] \/ s = [newline]).
Proof.
  destruct s as [|c [|d s]]; simpl.
  - split; [intros [<- | []]; auto | intros [-> _]; now left].
  - destruct (is_code 10 c) eqn:E; simpl.
    + apply is_code_eq in E. subst c. split.
      * intros [<- | []]. auto.
      * intros [-> _]. now left.
    + split; [tauto|]. intros [_ [H | H]]; [discriminate|].
      injection H as ->. discriminate.
  - split; [tauto|]. intros [_ [H | H]]; discriminate.
Qed.

Lemma star_run_chr p fuel s rest :
  In rest (star_run (run (Chr p)) fuel s) <->
  exists w, forallb p w = true /\ s = w ++ rest /\ length w <= fuel.
Proof.
  revert s. induction fuel as [|k IH]; intros s.
  - simpl. split.
    + intros [<- | []]. exists []. auto.
    + intros (w & _ & -> & Hlen). destruct w; [now left | simpl in Hlen; lia].
  - cbn [star_run]. split.
    + intros [<- | H].
      * exists []. repeat split; simpl; lia.
      * apply in_flat_map in H. destruct H as (t & Ht & Hrest).
        apply filter_In in Ht. destruct Ht as [Ht _].
        apply run_chr in Ht. destruct Ht as (c & -> & Hc).
        apply IH in Hrest. destruct Hrest as (w & Hw & -> & Hlen).
        exists (c :: w). simpl. rewrite Hc, Hw. repeat split. lia.
    + intros (w & Hw & -> & Hlen). destruct w as [|c w]; [now left|].
      right. simpl in Hw. apply andb_prop in Hw. destruct Hw as [Hc Hw].
      apply in_flat_map. exists (w ++ rest). split.
      * apply filter_In. split.
        -- apply run_chr. now exists c.
        -- apply Nat.ltb_lt. simpl. lia.
      * apply IH. exists w. repeat split; [exact Hw | simpl in Hlen; lia].
Qed.

Lemma run_plus_chr p s rest :
  In rest (run (Plus (Chr p)) s) <->
  exists w, w <> [] /\ forallb p w = true /\ s = w ++ rest.
Proof.
  unfold Plus. rewrite run_seq. split.
  - intros (mid & Hmid & Hrest). apply run_chr in Hmid.
    destruct Hmid as (c & -> & Hc).
    apply star_run_chr in Hrest. destruct Hrest as (w & Hw & -> & _).
    exists (c :: w). simpl. now rewrite Hc, Hw.
  - intros (w & Hne & Hw & ->). destruct w as [|c w]; [now destruct Hne|].
    simpl in Hw. apply andb_prop in Hw. destruct Hw as [Hc Hw].
    exists (w ++ rest). split; [apply run_chr; now exists c|].
    apply star_run_chr. exists w. repeat split; [exact Hw|].
    rewrite length_app. lia.
Qed.

Lemma run_rep_chr p n s rest :
  In rest (run (Rep n (Chr p)) s) <->
  exists w, length w = n /\ forallb p w = true /\ s = w ++ rest.
Proof.
  revert s. induction n as [|n IH]; intros s.
  - simpl. split.
    + intros [<- | []]. now exists [].
    + intros (w & Hlen & _ & ->). destruct w; [now left | discriminate].
  - change (Rep (S n) (Chr p)) with (Seq (Chr p) (Rep n (Chr p))).
    rewrite run_seq. split.
    + intros (mid & Hmid & Hrest). apply run_chr in Hmid.
      destruct Hmid as (c & -> & Hc).
      apply IH in Hrest. destruct Hrest as (w & Hlen & Hw & ->).
      exists (c :: w). simpl. now rewrite Hc, Hw, Hlen.
    + intros (w & Hlen & Hw & ->). destruct w as [|c w]; [discriminate|].
      simpl in Hw. apply andb_prop in Hw. destruct Hw as [Hc Hw].
      exists (w ++ rest). split; [apply run_chr; now exists c|].
      apply IH. exists w. simpl in Hlen. repeat split; [lia | exact Hw].
Qed.

Lemma matches_true r s :
  matches r s = true <-> exists rest, In rest (run r s).
Proof.
  unfold matches. destruct (run r s) as [|t l]; split.
  - discriminate.
  - now intros (rest & H).
  - intros _. exists t. now left.
  - reflexivity.
Qed.

(** The address pattern, read off the matcher. *)
Lemma matches_email_pattern v :
  matches email_pattern v = true <->
  exists local domain suffix rest : str,
    v = local ++ L "@" ++ domain ++ L "." ++ suffix ++ rest
    /\ (rest = [] \/ rest = [newline])
    /\ local <> [] /\ domain <> [] /\ suffix <> []
    /\ forallb word_dot_hyphen local = true
    /\ forallb word_dot_hyphen domain = true
    /\ forallb isword suffix = true.
Proof.
  rewrite matches_true. unfold email_pattern. split.
  - intros (rest & H).
    apply run_seq in H. destruct H as (m1 & H1 & H).
    apply run_plus_chr in H1. destruct H1 as (l & Hl & Hlp & ->).
    apply run_seq in H. destruct H as (m2 & H2 & H).
    apply run_chr in H2. destruct H2 as (c2 & -> & Hc2).
    apply is_code_eq in Hc2. subst c2.
    apply run_seq in H. destruct H as (m3 & H3 & H).
    apply run_plus_chr in H3. destruct H3 as (d & Hd & Hdp & ->).
    apply run_seq in H. destruct H as (m4 & H4 & H).
    apply run_chr in H4. destruct H4 as (c4 & -> & Hc4).
    apply is_code_eq in Hc4. subst c4.
    apply run_seq in H. destruct H as (m5 & H5 & H).
    apply run_plus_chr in H5. destruct H5 as (t & Ht & Htp & ->).
    apply run_eol in H. destruct H as [-> Hrest].
    exists l, d, t, m5. repeat split; assumption.
  - intros (l & d & t & rest & -> & Hrest & Hl & Hd & Ht & Hlp & Hdp & Htp).
    exists rest.
    apply run_seq. eexists. split; [apply run_plus_chr; now exists l|].
    apply run_seq. eexists. split; [apply run_chr; eexists; now split|].
    apply run_seq. eexists. split; [apply run_plus_chr; now exists d|].
    apply run_seq. eexists. split; [apply run_chr; eexists; now split|].
    apply run_seq. eexists. split; [apply run_plus_chr; now exists t|].
    apply run_eol. now split.
Qed.

(** The phone pattern, read off the matcher. *)
Lemma matches_phone_pattern v :
  matches phone_pattern v = true <->
  exists w rest : str,
    v = w ++ rest /\ (rest = [] \/ rest = [newline])
    /\ length w = 10 /\ forallb isdecimal w = true.
Proof.
  rewrite matches_true. unfold phone_pattern. split.
  - intros (rest & H).
    apply run_seq in H. destruct H as (m & H1 & H).
    apply run_rep_chr in H1. destruct H1 as (w & Hlen & Hw & ->).
    apply run_eol in H. destruct H as [-> Hrest].
    now exists w, m.
  - intros (w & rest & -> & Hrest & Hlen & Hw).
    exists rest. apply run_seq. exists rest.
    split; [apply run_rep_chr; now exists w | now apply run_eol].
Qed.

End Matching.

(** ** Addresses and lists *)

Section Addresses.

Lemma Ok_true_iff (b : bool) : Ok b = Ok true <-> b = true.
Proof. split; [now intros [= ->] | now intros ->]. Qed.

(** C4, as stated, fails: the suffix need not be alphabetic. *)
Lemma C4_email_suffix_not_alphabetic :
  ~ (forall x : str,
       validate_input (L "email") x = Ok true <-> spec_email_shape (strip x)).
Proof.
  intros H. destruct (H (L "a@b.1")) as [H1 _].
  destruct (H1 eq_refl) as (l & d & t & E & _ & _ & Ht & _ & _ & Halpha).
  destruct (exists_last Ht) as (t' & c & ->).
  change (strip (L "a@b.1")) with (L "a@b." ++ ["1"%char]) in E.
  rewrite !app_assoc in E. apply app_inj_tail in E. destruct E as [_ <-].
  rewrite forallb_app in Halpha. apply andb_prop in Halpha.
  destruct Halpha as [_ Hc]. discriminate.
Qed.

(** C4, amended: the email validator returns true exactly for the
    answers whose trimmed form is a non-empty run of word characters,
    dots and hyphens, one at sign, another such run, a dot, and a
    non-empty run of word characters (letters, digits, underscore);
    none of these runs can hold an at sign; a.b@c.org is accepted, a@b
    and abc are refused. *)
Theorem C4_validate_email :
  (forall x : str,
     validate_input (L "email") x = Ok true <-> email_shape (strip x))
  /\ (forall c, word_dot_hyphen c = true -> is_code 64 c = false)
  /\ validate_input (L "email") (L "a.b@c.org") = Ok true
  /\ validate_input (L "email") (L "a@b") = Ok false
  /\ validate_input (L "email") (L "abc") = Ok false.
Proof.
  split; [|split; [intros c; each_char c | repeat split; reflexivity]].
  intros x.
  rewrite validate_input_email.
  destruct (strip x) as [|c v] eqn:E.
  - rewrite guarded_empty by exact E. split; [discriminate|].
    intros (l & d & t & H & Hl & _). now destruct l.
  - rewrite guarded_nonempty by (rewrite E; discriminate).
    rewrite <- E. unfold validate_email.
    rewrite Ok_true_iff, matches_email_pattern. split.
    + intros (l & d & t & rest & H & [-> | ->] & Hrest).
      * exists l, d, t. now rewrite !app_nil_r in H.
      * exfalso.
        assert (Hsp : isspace newline = false).
        { apply (strip_last x (l ++ L "@" ++ d ++ L "." ++ t)).
          rewrite H, <- !app_assoc. reflexivity. }
        discriminate.
    + intros (l & d & t & H & Hrest).
      exists l, d, t, []. rewrite app_nil_r. now split; [|split; [left|]].
Qed.

Lemma C4_validate_email_witness :
  validate_input (L "email") (L " first.last-x@mail-host.example.c0_m ")
  = Ok true.
Proof.
  apply (proj1 C4_validate_email).
  exists (L "first.last-x"), (L "mail-host.example"), (L "c0_m").
  repeat split; discriminate.
Defined.

End Addresses.

Section Lists.

Lemma length_pos_nonempty (s : str) : s <> [] -> (0 <? length s) = true.
Proof. destruct s; [congruence | reflexivity]. Qed.

Lemma validate_list_comma_free answer :
  forallb (other_than ","%char) answer = true -> strip answer <> [] ->
  validate_input (L "list") answer = Ok true.
Proof.
  intros Hfree Hne. rewrite validate_input_list.
  rewrite guarded_nonempty by exact Hne. unfold validate_list.
  rewrite (split_on_free _ _ (forallb_strip _ _ Hfree)).
  simpl. rewrite strip_idem, (length_pos_nonempty _ Hne). reflexivity.
Qed.

(** C10: a comma-free answer whose trimmed form is not empty passes
    list validation, and at the skills question, the only one of list
    kind, the loop stores the one-element list of its trimmed text and
    moves on. *)
Theorem C10_single_skill (answer : str) (p : dict) :
  forallb (other_than ","%char) answer = true -> strip answer <> [] ->
  validate_input (L "list") answer = Ok true
  /\ step (State 5 p) answer
     = State 6 (dict_set (L "skills") (VList [strip answer]) p).
Proof.
  intros Hfree Hne.
  pose proof (validate_list_comma_free _ Hfree Hne) as Hv.
  split; [exact Hv|].
  unfold step.
  change (nth_error questions (index (State 5 p)))
    with (Some (L "skills",
                L "What are your skills? (separate with and)", L "list")).
  unfold answer_question. rewrite Hv.
  change (coerce (L "skills") answer)
    with (Some (VList (map strip (split_on ","%char answer)))).
  rewrite (split_on_free _ _ Hfree). reflexivity.
Qed.

Lemma C10_single_skill_witness :
  validate_input (L "list") (L " python ") = Ok true
  /\ step (State 5 initial_profile) (L " python ")
     = State 6 (dict_set (L "skills") (VList [L "python"]) initial_profile).
Proof.
  apply (C10_single_skill (L " python ") initial_profile).
  - reflexivity.
  - discriminate.
Defined.

End Lists.


(** ** The profile as a dictionary *)

Section Dictionaries.

Lemma dict_get_set key k v d :
  dict_get k (dict_set key v d)
  = if bool_decide (key = k) then Some v else dict_get k d.
Proof.
  induction d as [|[k0 w] d IH]; simpl.
  - reflexivity.
  - destruct (bool_decide (k0 = key)) eqn:E; simpl.
    + apply bool_decide_eq_true in E. subst k0.
      destruct (bool_decide (key = k)); reflexivity.
    + apply bool_decide_eq_false in E. rewrite IH.
      destruct (bool_decide (k0 = k)) eqn:E1; [|reflexivity].
      apply bool_decide_eq_true in E1. subst k0.
      now rewrite bool_decide_eq_false_2 by congruence.
Qed.

Lemma dict_set_keys key v d :
  In key (map fst d) -> map fst (dict_set key v d) = map fst d.
Proof.
  induction d as [|[k0 w] d IH]; simpl; [tauto|].
  intros H. destruct (bool_decide (k0 = key)) eqn:E; simpl; [reflexivity|].
  apply bool_decide_eq_false in E. destruct H as [H | H]; [congruence|].
  now rewrite IH.
Qed.

(** Every question names a field of the profile other than the time
    stamp, and no two questions name the same field. *)
Lemma question_field i field question field_type :
  nth_error questions i = Some (field, question, field_type) ->
  In field (map fst initial_profile) /\ field <> L "created_at".
Proof.
  intros H.
  do 8 (destruct i as [|i];
        [injection H as <- _ _; split; [simpl; tauto | discriminate]|]).
  now destruct i.
Qed.

Lemma question_fields_distinct i j field q1 t1 q2 t2 :
  nth_error questions i = Some (field, q1, t1) ->
  nth_error questions j = Some (field, q2, t2) -> i = j.
Proof.
  intros Hi Hj.
  do 8 (destruct i as [|i];
        [injection Hi as <- _ _;
         do 8 (destruct j as [|j]; [first [reflexivity | discriminate]|]);
         now destruct j|]).
  now destruct i.
Qed.

End Dictionaries.

(** ** The questionnaire loop *)

Section Wizard.

Lemma stored_by_more field field_type answers a v :
  stored_by field field_type answers v ->
  stored_by field field_type (answers ++ [a]) v.
Proof.
  intros (b & Hb & H). exists b. split; [|exact H].
  apply in_or_app. now left.
Qed.

(** What [step] does, by cases on the check and the coercion. *)
Lemma step_cases st a :
  step st a = st
  \/ exists field question field_type v,
       nth_error questions (index st) = Some (field, question, field_type)
       /\ validate_input field_type a = Ok true
       /\ coerce field a = Some v
       /\ step st a = State (S (index st)) (dict_set field v (profile st)).
Proof.
  unfold step.
  destruct (nth_error questions (index st)) as [[[field question] ft]|] eqn:E;
    [|now left].
  unfold answer_question.
  destruct (validate_input ft a) as [[|]|e] eqn:Hv; [|now left|now left].
  destruct (coerce field a) as [v|] eqn:Hc; [|now left].
  right. now exists field, question, ft, v.
Qed.

Lemma step_rejected st a : rejected st a -> step st a = st.
Proof.
  intros H. destruct (step_cases st a) as [E | (f & q & ft & v & Hq & Hv & _)];
    [exact E|].
  now destruct (H f q ft Hq).
Qed.

Lemma run_rejected st answers :
  Forall (rejected st) answers -> run_answers st answers = st.
Proof.
  unfold run_answers. induction 1 as [|a answers Ha _ IH]; [reflexivity|].
  simpl. now rewrite (step_rejected _ _ Ha).
Qed.

Lemma wizard_invariant_initial : wizard_invariant [] initial_state.
Proof.
  unfold wizard_invariant. simpl index.
  split; [simpl; lia|]. split; [reflexivity|]. split; [reflexivity|].
  intros i field question ft _. reflexivity.
Qed.

Lemma wizard_invariant_more answers a st :
  wizard_invariant answers st -> wizard_invariant (answers ++ [a]) st.
Proof.
  intros (H1 & H2 & H3 & H4).
  split; [exact H1|]. split; [exact H2|]. split; [exact H3|].
  intros i f q ft Hq. specialize (H4 i f q ft Hq).
  destruct (i <? index st); [|exact H4].
  destruct H4 as (v & Hv & Hs). exists v. split; [exact Hv|].
  now apply stored_by_more.
Qed.

Lemma wizard_invariant_step answers a st :
  wizard_invariant answers st ->
  wizard_invariant (answers ++ [a]) (step st a).
Proof.
  intros Hinv.
  destruct (step_cases st a) as [E | (f & q & ft & v & Hq & Hv & Hc & E)];
    rewrite E; [now apply wizard_invariant_more|].
  destruct Hinv as (H1 & H2 & H3 & H4).
  destruct (question_field _ _ _ _ Hq) as [Hin Hne].
  unfold wizard_invariant. simpl index. simpl profile.
  split; [|split; [|split]].
  - assert (index st < length questions); [|lia].
    apply nth_error_Some. congruence.
  - rewrite dict_set_keys; [exact H2 | now rewrite H2].
  - rewrite dict_get_set, bool_decide_eq_false_2 by exact Hne. exact H3.
  - intros i f' q' ft' Hq'. rewrite dict_get_set.
    destruct (Nat.eq_dec i (index st)) as [-> | Hi].
    + rewrite Hq in Hq'. injection Hq' as <- <- <-.
      rewrite (proj2 (Nat.ltb_lt _ _)) by lia.
      rewrite bool_decide_eq_true_2 by reflexivity.
      exists v. split; [reflexivity|]. exists a.
      split; [apply in_or_app; right; now left | now split].
    + assert (Hf : f <> f').
      { intros ->. apply Hi. symmetry.
        exact (question_fields_distinct _ _ _ _ _ _ _ Hq Hq'). }
      rewrite bool_decide_eq_false_2 by exact Hf.
      specialize (H4 i f' q' ft' Hq').
      destruct (i <? index st) eqn:Hlt.
      * apply Nat.ltb_lt in Hlt.
        rewrite (proj2 (Nat.ltb_lt _ _)) by lia.
        destruct H4 as (w & Hw & Hs). exists w. split; [exact Hw|].
        now apply stored_by_more.
      * apply Nat.ltb_ge in Hlt.
        rewrite (proj2 (Nat.ltb_ge _ _)) by lia. exact H4.
Qed.

Lemma run_answers_snoc st answers a :
  run_answers st (answers ++ [a]) = step (run_answers st answers) a.
Proof. unfold run_answers. now rewrite fold_left_app. Qed.

Lemma wizard_invariant_run answers :
  wizard_invariant answers (run_answers initial_state answers).
Proof.
  induction answers as [|a answers IH] using rev_ind.
  - apply wizard_invariant_initial.
  - rewrite run_answers_snoc. now apply wizard_invariant_step.
Qed.

(** The loop ends only past the last question, and its state is the one
    the acquired answers lead to. *)
Lemma ask_run fuel use_voice st events st' :
  ask fuel use_voice st events = Some st' ->
  exists answers,
    st' = run_answers st answers /\ nth_error questions (index st') = None.
Proof.
  revert st events. induction fuel as [|k IH]; intros st events H.
  - simpl in H.
    destruct (nth_error questions (index st)) as [[[f q] ft]|] eqn:E;
      [discriminate|].
    injection H as <-. now exists [].
  - simpl in H.
    destruct (nth_error questions (index st)) as [[[f q] ft]|] eqn:E.
    + destruct (acquire use_voice q events) as [[a rest]|]; [|discriminate].
      apply IH in H. destruct H as (answers & -> & Hend).
      now exists (a :: answers).
    + injection H as <-. now exists [].
Qed.

Lemma create_profile_run events now fs p r :
  create_profile events now fs = Some (p, r) ->
  exists answers,
    index (run_answers initial_state answers) = length questions
    /\ p = dict_set (L "created_at") (VStr now)
             (profile (run_answers initial_state answers))
    /\ r = save_profile p default_filename fs.
Proof.
  unfold create_profile. intros H.
  destruct events as [|[reply|rec] rest]; try discriminate.
  destruct (ask (length rest) (startswith (L "y") (lower reply))
              initial_state rest) as [st|] eqn:E; [|discriminate].
  injection H as <- <-.
  apply ask_run in E. destruct E as (answers & -> & Hend).
  exists answers. repeat split.
  apply nth_error_None in Hend.
  destruct (wizard_invariant_run answers) as [Hle _]. lia.
Qed.

(** More fuel than events changes nothing: the loop stops for want of
    events, never for want of fuel. *)
Lemma acquire_shorter use_voice question events answer rest :
  acquire use_voice question events = Some (answer, rest) ->
  length rest < length events.
Proof.
  unfold acquire. destruct use_voice.
  - generalize 3. intros n. revert events.
    induction n as [|n IH]; intros events H.
    + destruct events as [|[line|rec] events]; try discriminate.
      injection H as _ <-. simpl. lia.
    + cbn [get_voice_input] in H.
      destruct events as [|[line|[text| | | ]] events]; try discriminate.
      * destruct events as [|[reply|rec] events]; try discriminate.
        destruct (startswith (L "y") (lower reply)).
        -- injection H as _ <-. simpl. lia.
        -- apply IH in H. simpl. lia.
      * apply IH in H. simpl. lia.
      * apply IH in H. simpl. lia.
      * destruct events as [|[line|rec] events]; try discriminate.
        injection H as _ <-. simpl. lia.
  - destruct events as [|[line|rec] events]; try discriminate.
    intros H. injection H as _ <-. simpl. lia.
Qed.

Lemma ask_fuel fuel use_voice st events :
  length events <= fuel ->
  ask fuel use_voice st events = ask (length events) use_voice st events.
Proof.
  revert st events.
  induction fuel as [fuel IH] using lt_wf_ind. intros st events Hle.
  destruct fuel as [|k], events as [|e events]; try reflexivity.
  - simpl in Hle. lia.
  - simpl.
    destruct (nth_error questions (index st)) as [[[f q] ft]|]; [|reflexivity].
    destruct use_voice; reflexivity.
  - simpl length.
    change (ask (S k) use_voice st (e :: events))
      with (match nth_error questions (index st) with
            | None => Some st
            | Some (_, question, _) =>
                match acquire use_voice question (e :: events) with
                | Some (answer, rest) => ask k use_voice (step st answer) rest
                | None => None
                end
            end).
    change (ask (S (length events)) use_voice st (e :: events))
      with (match nth_error questions (index st) with
            | None => Some st
            | Some (_, question, _) =>
                match acquire use_voice question (e :: events) with
                | Some (answer, rest) =>
                    ask (length events) use_voice (step st answer) rest
                | None => None
                end
            end).
    destruct (nth_error questions (index st)) as [[[f q] ft]|]; [|reflexivity].
    destruct (acquire use_voice q (e :: events)) as [[a rest]|] eqn:E;
      [|reflexivity].
    apply acquire_shorter in E. simpl in E, Hle.
    rewrite (IH k) by lia.
    rewrite (IH (length events)) by lia. reflexivity.
Qed.

End Wizard.

Section Claims_on_the_wizard.


Lemma forallb_filter (p q : ascii -> bool) s :
  forallb p s = true -> forallb p (List.filter q s) = true.
Proof.
  induction s as [|c s IH]; [reflexivity|].
  simpl. intros H. apply andb_prop in H. destruct H as [Hc Hs].
  destruct (q c); simpl; [rewrite Hc|]; now apply IH.
Qed.





(** C7: answers the current question rejects leave the question index
    and the record as they were; a field other than the time stamp
    differs from its initial value only when the loop is past its
    question and one of the answers given passed the validation of that
    question, the field holding that answer in its stored shape; the
    time stamp is unset throughout the loop and set, once, when all
    questions are answered. *)
Theorem C7_fields_only_after_validation :
  (forall st answers,
     Forall (rejected st) answers -> run_answers st answers = st)
  /\ (forall answers i field question field_type v,
        nth_error questions i = Some (field, question, field_type) ->
        dict_get field (profile (run_answers initial_state answers)) = Some v ->
        dict_get field initial_profile <> Some v ->
        i < index (run_answers initial_state answers)
        /\ exists a, In a answers /\ validate_input field_type a = Ok true
                     /\ coerce field a = Some v)
  /\ (forall answers,
        dict_get (L "created_at") (profile (run_answers initial_state answers))
        = Some VNone)
  /\ (forall events now fs p r,
        create_profile events now fs = Some (p, r) ->
        dict_get (L "created_at") p = Some (VStr now)
        /\ exists answers,
             index (run_answers initial_state answers) = length questions
             /\ p = dict_set (L "created_at") (VStr now)
                      (profile (run_answers initial_state answers))).
Proof.
  split; [exact run_rejected|]. split; [|split].
  - intros answers i field question ft v Hq Hget Hinit.
    destruct (wizard_invariant_run answers) as (_ & _ & _ & Hfields).
    specialize (Hfields i field question ft Hq).
    destruct (i <? index (run_answers initial_state answers)) eqn:Hlt.
    + apply Nat.ltb_lt in Hlt. split; [exact Hlt|].
      destruct Hfields as (w & Hw & Hs).
      rewrite Hw in Hget. injection Hget as ->. exact Hs.
    + rewrite Hfields in Hget. now destruct Hinit.
  - intros answers. now destruct (wizard_invariant_run answers) as (_ & _ & H & _).
  - intros events now fs p r H. apply create_profile_run in H.
    destruct H as (answers & Hidx & -> & _). split.
    + rewrite dict_get_set. now rewrite bool_decide_eq_true_2.
    + now exists answers.
Qed.

Lemma C7_fields_only_after_validation_witness :
  run_answers (State 1 initial_profile) [L "twenty nine"; L "100"; L "-3"]
  = State 1 initial_profile.
Proof.
  apply (proj1 C7_fields_only_after_validation).
  repeat constructor; intros f q ft [= <- <- <-]; vm_compute; discriminate.
Defined.

End Claims_on_the_wizard.

(** ** The acquirer *)

Section Acquirer.

(** C8: in voice mode, whatever number of attempts already failed, a
    service error of the recogniser ends the voice attempts for this
    question at once: the answer is the line read in text mode right
    after the error, and the attempts that were left are not used. *)
Theorem C8_service_error_falls_back (prompt : str) (retries : nat)
    (attempts : list (list event)) (rest : list event) :
  Forall failed_attempt attempts ->
  length attempts < retries ->
  get_voice_input prompt retries
    (concat attempts ++ Listen RequestError :: rest)
  = get_text_input prompt rest.
Proof.
  intros Hfailed. revert retries.
  induction Hfailed as [|attempt attempts Hattempt _ IH]; intros retries Hlen.
  - destruct retries as [|k]; [simpl in Hlen; lia|]. reflexivity.
  - destruct retries as [|k]; [simpl in Hlen; lia|].
    simpl in Hlen. assert (Hk : length attempts < k) by lia.
    specialize (IH k Hk).
    destruct Hattempt as [| |text reply Hreply]; cbn [concat app].
    + cbn [get_voice_input]. exact IH.
    + cbn [get_voice_input]. exact IH.
    + cbn [get_voice_input]. rewrite Hreply. exact IH.
Qed.

Lemma C8_service_error_falls_back_witness :
  get_voice_input (L "What is your age?") 3
    (concat [[Listen WaitTimeoutError];
             [Listen (Transcript (L "I am 25")); Input (L "no")]]
     ++ Listen RequestError :: [Input (L " 25 "); Input (L "next")])
  = Some (L "25", [Input (L "next")]).
Proof.
  apply (C8_service_error_falls_back (L "What is your age?") 3
           [[Listen WaitTimeoutError];
            [Listen (Transcript (L "I am 25")); Input (L "no")]]
           [Input (L " 25 "); Input (L "next")]).
  - repeat constructor.
  - simpl. lia.
Defined.

End Acquirer.

(** ** The record store *)

Section Documents.

Lemma lines_single s :
  forallb (other_than newline) s = true -> lines s = [s].
Proof. apply split_on_free. Qed.

Lemma lines_app a b : lines (a ++ newline :: b) = lines a ++ lines b.
Proof. apply split_on_app. Qed.

Ltac reshape_document new :=
  match goal with
  | |- omap key_of_line (lines ?doc) = _ => replace doc with new
  end.

Lemma escape_char_no_newline c :
  forallb (other_than newline) (escape_char c) = true.
Proof. each_char c. Qed.

Lemma escape_char_plain c : plain c = true -> escape_char c = [c].
Proof. each_char c. Qed.

Lemma plain_not_quote c : plain c = true -> is_code 34 c = false.
Proof. each_char c. Qed.

Lemma escape_no_newline s :
  forallb (other_than newline) (flat_map escape_char s) = true.
Proof.
  induction s as [|c s IH]; [reflexivity|].
  simpl. now rewrite forallb_app, escape_char_no_newline, IH.
Qed.

Lemma json_string_no_newline s :
  forallb (other_than newline) (json_string s) = true.
Proof.
  unfold json_string. simpl. rewrite forallb_app, escape_no_newline.
  reflexivity.
Qed.

Lemma escape_plain s :
  forallb plain s = true -> flat_map escape_char s = s.
Proof.
  induction s as [|c s IH]; [reflexivity|].
  simpl. intros H. apply andb_prop in H. destruct H as [Hc Hs].
  now rewrite (escape_char_plain _ Hc), (IH Hs).
Qed.

Lemma until_quote_plain k rest :
  forallb plain k = true -> until_quote (k ++ dquote :: rest) = k.
Proof.
  induction k as [|c k IH]; [reflexivity|].
  simpl. intros H. apply andb_prop in H. destruct H as [Hc Hk].
  now rewrite (plain_not_quote _ Hc), (IH Hk).
Qed.

Lemma string_of_uint_no_newline d :
  forallb (other_than newline)
    (list_ascii_of_string (NilEmpty.string_of_uint d)) = true.
Proof. induction d; simpl; auto. Qed.

Lemma str_of_int_no_newline n :
  forallb (other_than newline) (str_of_int n) = true.
Proof.
  unfold str_of_int. destruct (Z.to_int n) as [d|d]; simpl.
  - apply string_of_uint_no_newline.
  - apply string_of_uint_no_newline.
Qed.


Lemma keys_of_single_line s :
  forallb (other_than newline) s = true ->
  omap key_of_line (lines s)
  = match key_of_line s with Some k => [k] | None => [] end.
Proof. intros H. rewrite (lines_single _ H). simpl. now destruct (key_of_line s). Qed.

(** The elements of a list value sit four blanks deep: none of their
    lines opens with a key. *)
Lemma element_lines_no_keys strs :
  strs <> [] ->
  Forall (fun s => forallb (other_than newline) s = true) strs ->
  omap key_of_line
    (lines (L "    " ++ join (L "," ++ newline_indent 2) strs)) = [].
Proof.
  intros Hne H. induction H as [|x strs Hx Hstrs IH]; [now destruct Hne|].
  destruct strs as [|y strs].
  - rewrite keys_of_single_line; [reflexivity|].
    simpl. exact Hx.
  - rewrite join_cons.
    reshape_document
      ((L "    " ++ x ++ L ",") ++ newline
       :: (L "    " ++ join (L "," ++ newline_indent 2) (y :: strs))).
    + rewrite lines_app, omap_app, IH by discriminate.
      rewrite keys_of_single_line; [reflexivity|].
      simpl. rewrite forallb_app, Hx. reflexivity.
    + simpl. rewrite <- app_assoc. reflexivity.
Qed.

Lemma json_value_lines k v tail :
  forallb plain k = true ->
  forallb (other_than newline) tail = true ->
  omap key_of_line (lines (L "  " ++ json_item (k, v) ++ tail)) = [k].
Proof.
  intros Hk Htail. unfold json_item, json_string. simpl fst. simpl snd.
  rewrite (escape_plain _ Hk).
  assert (Hknl : forallb (other_than newline) k = true).
  { clear -Hk. induction k as [|c k IH]; [reflexivity|].
    simpl in *. apply andb_prop in Hk. destruct Hk as [Hc Hk].
    rewrite (IH Hk), andb_true_r. revert Hc. each_char c. }
  assert (Hone : forall rest,
             forallb (other_than newline) rest = true ->
             omap key_of_line
               (lines (L "  " ++ dquote :: k ++ dquote :: rest)) = [k]).
  { intros rest Hrest. rewrite keys_of_single_line.
    - simpl. now rewrite until_quote_plain.
    - simpl. rewrite forallb_app, Hknl. simpl. exact Hrest. }
  destruct v as [|s|n|[|x xs]].
  - reshape_document (L "  " ++ dquote :: k ++ dquote :: (L ": null" ++ tail)).
    + apply Hone. simpl. exact Htail.
    + simpl. rewrite <- ?app_assoc. reflexivity.
  - reshape_document
      (L "  " ++ dquote :: k ++ dquote :: (L ": " ++ json_string s ++ tail)).
    + apply Hone.
      rewrite !forallb_app, json_string_no_newline, Htail. reflexivity.
    + unfold json_value, json_string. simpl. rewrite <- ?app_assoc.
      simpl. rewrite <- ?app_assoc. reflexivity.
  - reshape_document
      (L "  " ++ dquote :: k ++ dquote :: (L ": " ++ str_of_int n ++ tail)).
    + apply Hone.
      rewrite !forallb_app, str_of_int_no_newline, Htail. reflexivity.
    + unfold json_value. simpl. rewrite <- ?app_assoc. simpl.
      rewrite <- ?app_assoc. reflexivity.
  - reshape_document (L "  " ++ dquote :: k ++ dquote :: (L ": []" ++ tail)).
    + apply Hone. simpl. exact Htail.
    + simpl. rewrite <- ?app_assoc. reflexivity.
  - reshape_document
      ((L "  " ++ dquote :: k ++ dquote :: L ": [")
       ++ newline
       :: (L "    " ++ join (L "," ++ newline_indent 2)
                       (map json_string (x :: xs)))
       ++ newline :: (L "  ]" ++ tail)).
    + rewrite lines_app, omap_app, Hone by reflexivity.
      rewrite lines_app, omap_app.
      rewrite element_lines_no_keys.
      * rewrite keys_of_single_line; [reflexivity|]. simpl. exact Htail.
      * discriminate.
      * apply Forall_map. apply Forall_forall. intros s _.
        apply json_string_no_newline.
    + unfold json_value, json_list.
      generalize (join (L "," ++ newline_indent 2) (map json_string (x :: xs))).
      intros body. simpl. rewrite <- ?app_assoc. simpl.
      rewrite <- ?app_assoc. reflexivity.
Qed.

Lemma body_keys d :
  d <> [] ->
  Forall (fun kv => forallb plain (fst kv) = true) d ->
  omap key_of_line
    (lines (L "  " ++ join (L "," ++ newline_indent 1) (map json_item d)))
  = map fst d.
Proof.
  intros Hne H. induction H as [|[k v] d Hk Hd IH]; [now destruct Hne|].
  destruct d as [|kv d].
  - simpl map. simpl join.
    rewrite <- (app_nil_r (json_item (k, v))).
    now rewrite json_value_lines.
  - change (map json_item ((k, v) :: kv :: d))
      with (json_item (k, v) :: json_item kv :: map json_item d).
    rewrite join_cons.
    reshape_document
      ((L "  " ++ json_item (k, v) ++ L ",") ++ newline
       :: (L "  " ++ join (L "," ++ newline_indent 1)
                      (map json_item (kv :: d)))).
    + rewrite lines_app, omap_app, json_value_lines by (exact Hk || reflexivity).
      rewrite IH by discriminate. reflexivity.
    + simpl. rewrite <- ?app_assoc. reflexivity.
Qed.

(** The keys that open the lines of the document are the keys of the
    dictionary, in its order. *)
Lemma top_level_keys_dump d :
  Forall (fun kv => forallb plain (fst kv) = true) d ->
  top_level_keys (json_dump d) = map fst d.
Proof.
  intros H. destruct d as [|kv d]; [reflexivity|].
  unfold top_level_keys, json_dump.
  reshape_document
    (L "{" ++ newline
     :: (L "  " ++ join (L "," ++ newline_indent 1)
                    (map json_item (kv :: d)))
     ++ newline :: L "}").
  - rewrite lines_app, omap_app.
    rewrite lines_app, omap_app.
    rewrite body_keys by (discriminate || exact H).
    simpl. now rewrite app_nil_r.
  - simpl. reflexivity.
Qed.

End Documents.

Section Store.





End Store.

(** * Further properties of the code *)

(** ** The validator *)

Section More_on_the_validator.

Lemma strip_nonempty_input x : strip x <> [] -> is_empty x = false.
Proof. destruct x; [intros H; now destruct H | reflexivity]. Qed.

(** White space around an answer never changes the verdict, whatever
    the field type. *)
Theorem validate_input_strip (field_type x : str) :
  validate_input field_type (strip x) = validate_input field_type x.
Proof.
  unfold validate_input. rewrite strip_idem.
  destruct (strip x) as [|c v] eqn:E.
  - simpl. now rewrite orb_true_r.
  - rewrite (strip_nonempty_input x) by (rewrite E; discriminate).
    reflexivity.
Qed.

Lemma validate_text_closed (x : str) :
  validate_input (L "text") x = Ok (2 <=? length (strip x)).
Proof.
  rewrite validate_input_text.
  destruct (strip x) as [|c v] eqn:E.
  - now rewrite guarded_empty.
  - rewrite guarded_nonempty by (rewrite E; discriminate).
    now rewrite E.
Qed.

(** The text validator in closed form: at least two characters once
    trimmed; it never raises. *)
Theorem validate_text_length (x : str) :
  validate_input (L "text") x = Ok (2 <=? length (strip x)).
Proof. apply validate_text_closed. Qed.

(** A field type without a validator accepts whatever is not blank. *)
Theorem validate_unknown_type (field_type x : str) :
  ~ In field_type [L "text"; L "number"; L "email"; L "phone"; L "list"] ->
  validate_input field_type x = Ok (negb (is_empty (strip x))).
Proof.
  intros H. unfold validate_input.
  destruct (strip x) as [|c v] eqn:E.
  - simpl. now rewrite orb_true_r.
  - rewrite (strip_nonempty_input x) by (rewrite E; discriminate).
    simpl orb. cbv iota.
    repeat (rewrite bool_decide_eq_false_2;
            [|intros ->; apply H; simpl; tauto]).
    reflexivity.
Qed.

Lemma validate_unknown_type_witness :
  validate_input (L "date") (L " tomorrow ") = Ok true
  /\ validate_input (L "date") (L "   ") = Ok false.
Proof.
  split.
  - apply (validate_unknown_type (L "date") (L " tomorrow ")).
    simpl. intros [H | [H | [H | [H | [H | []]]]]]; discriminate.
  - apply (validate_unknown_type (L "date") (L "   ")).
    simpl. intros [H | [H | [H | [H | [H | []]]]]]; discriminate.
Defined.


(** The phone validator in full: once trimmed and freed of hyphens and
    blanks the answer is ten decimal digits, after which one line break
    may still follow.  The last example is accepted for that reason. *)
Theorem validate_phone_iff :
  (forall x : str,
     validate_input (L "phone") x = Ok true <->
     exists w rest : str,
       without " "%char (without "-"%char (strip x)) = w ++ rest
       /\ (rest = [] \/ rest = [newline])
       /\ length w = 10 /\ forallb isdecimal w = true)
  /\ validate_input (L "phone") (L "1234567890") = Ok true
  /\ validate_input (L "phone") (L "123-456-7890") = Ok true
  /\ validate_input (L "phone") (L "12345") = Ok false
  /\ validate_input (L "phone") (L "1234567890" ++ [newline; "-"%char])
     = Ok true.
Proof.
  split; [|repeat split; reflexivity]. intros x.
  rewrite validate_input_phone.
  destruct (strip x) as [|c v] eqn:E.
  - rewrite guarded_empty by exact E. split; [discriminate|].
    intros (w & rest & H & _ & Hlen & _). simpl in H.
    destruct w; [discriminate Hlen | discriminate H].
  - rewrite guarded_nonempty by (rewrite E; discriminate).
    rewrite <- E. unfold validate_phone.
    change (L "-") with ["-"%char]. change (L " ") with [" "%char].
    rewrite !replace_char_nil.
    fold (without "-"%char (strip x)).
    fold (without " "%char (without "-"%char (strip x))).
    rewrite Ok_true_iff. apply matches_phone_pattern.
Qed.

End More_on_the_validator.

(** ** Trimming and splitting together *)

Section Trimming_items.

Lemma strip_lstrip_rstrip s : rstrip (lstrip s) = lstrip (rstrip s).
Proof.
  induction s as [|c s IH]; [reflexivity|].
  destruct (isspace c) eqn:Hc.
  - change (lstrip (c :: s)) with (if isspace c then lstrip s else c :: s).
    rewrite Hc, IH. simpl rstrip. rewrite Hc. simpl andb.
    destruct (rstrip s) as [|d r] eqn:Hr; simpl; [reflexivity|].
    now rewrite Hc.
  - change (lstrip (c :: s)) with (if isspace c then lstrip s else c :: s).
    rewrite Hc, (rstrip_cons _ _ Hc). simpl. now rewrite Hc.
Qed.

Lemma rstrip_nil s : rstrip s = [] -> forallb isspace s = true.
Proof.
  induction s as [|c s IH]; [reflexivity|]. simpl.
  destruct (isspace c) eqn:Hc; simpl.
  - destruct (rstrip s) as [|d r]; [intros _; now apply IH | discriminate].
  - discriminate.
Qed.

Lemma split_on_blank sep s :
  isspace sep = false -> forallb isspace s = true -> split_on sep s = [s].
Proof.
  intros Hsep H. apply split_on_free.
  induction s as [|c s IH]; [reflexivity|].
  simpl in *. apply andb_prop in H. destruct H as [Hc Hs].
  rewrite (IH Hs), andb_true_r. unfold other_than.
  destruct (eqb_char c sep) eqn:E; [|reflexivity].
  apply eqb_char_eq in E. congruence.
Qed.

Lemma space_not_sep sep c :
  isspace sep = false -> isspace c = true -> eqb_char c sep = false.
Proof.
  intros Hsep Hc. destruct (eqb_char c sep) eqn:E; [|reflexivity].
  apply eqb_char_eq in E. congruence.
Qed.

Lemma map_rstrip_split_rstrip sep s :
  isspace sep = false ->
  map rstrip (split_on sep (rstrip s)) = map rstrip (split_on sep s).
Proof.
  intros Hsep. induction s as [|c s IH]; [reflexivity|].
  destruct (isspace c && is_empty (rstrip s)) eqn:E.
  - assert (Hr : rstrip (c :: s) = []) by (simpl; now rewrite E).
    rewrite Hr. rewrite (split_on_blank sep (c :: s) Hsep).
    + cbn [map split_on]. now rewrite Hr.
    + now apply rstrip_nil.
  - assert (Hr : rstrip (c :: s) = c :: rstrip s) by (simpl; now rewrite E).
    rewrite Hr. simpl split_on.
    destruct (eqb_char c sep) eqn:Ec; [simpl; now rewrite IH|].
    destruct (split_on sep (rstrip s)) as [|i items] eqn:E1;
      [now destruct (split_on_not_nil sep (rstrip s))|].
    destruct (split_on sep s) as [|i' items'] eqn:E2;
      [now destruct (split_on_not_nil sep s)|].
    simpl in IH. injection IH as Hi Hitems.
    simpl. now rewrite Hi, Hitems.
Qed.

Lemma map_strip_split_lstrip sep s :
  isspace sep = false ->
  map strip (split_on sep (lstrip s)) = map strip (split_on sep s).
Proof.
  intros Hsep. induction s as [|c s IH]; [reflexivity|].
  destruct (isspace c) eqn:Hc.
  - change (lstrip (c :: s)) with (if isspace c then lstrip s else c :: s).
    rewrite Hc, IH.
    destruct (split_on_cons_other sep c s (space_not_sep _ _ Hsep Hc))
      as (i & items & E1 & E2).
    rewrite E1, E2. simpl. f_equal. unfold strip. simpl. now rewrite Hc.
  - change (lstrip (c :: s)) with (if isspace c then lstrip s else c :: s).
    now rewrite Hc.
Qed.

Lemma map_strip_rstrip items :
  map strip items = map lstrip (map rstrip items).
Proof.
  rewrite map_map. apply map_ext. intros s. apply strip_lstrip_rstrip.
Qed.

(** Trimming the whole text first does not change the trimmed items. *)
Lemma map_strip_split_strip sep s :
  isspace sep = false ->
  map strip (split_on sep (strip s)) = map strip (split_on sep s).
Proof.
  intros Hsep. unfold strip at 2.
  rewrite map_strip_rstrip, (map_rstrip_split_rstrip _ _ Hsep).
  rewrite <- map_strip_rstrip. now apply map_strip_split_lstrip.
Qed.

Lemma list_answer_items (answer : str) :
  validate_input (L "list") answer = Ok true ->
  exists items,
    coerce (L "skills") answer = Some (VList items)
    /\ items = map strip (split_on ","%char (strip answer))
    /\ items <> []
    /\ Forall (fun item => item <> [] /\ strip item = item) items.
Proof.
  intros Hv. rewrite validate_input_list in Hv.
  destruct (strip answer) as [|c v] eqn:E.
  { rewrite guarded_empty in Hv by exact E. discriminate. }
  rewrite guarded_nonempty in Hv by (rewrite E; discriminate).
  rewrite <- E. unfold validate_list in Hv. injection Hv as Hv.
  exists (map strip (split_on ","%char (strip answer))).
  split; [|split; [reflexivity|split]].
  - change (coerce (L "skills") answer)
      with (Some (VList (map strip (split_on ","%char answer)))).
    now rewrite map_strip_split_strip.
  - destruct (split_on ","%char (strip answer)) eqn:E';
      [now destruct (split_on_not_nil ","%char (strip answer)) | discriminate].
  - apply Forall_map. apply List.Forall_forall. intros item Hin.
    rewrite forallb_forall in Hv. specialize (Hv item Hin).
    split; [|apply strip_idem].
    intros Hnil. rewrite Hnil in Hv. discriminate.
Qed.

(** An answer that passes the list check is stored as the trimmed items
    the check looked at: there is at least one, none is empty, none has
    white space left at either end. *)
Theorem list_answer_stored (answer : str) :
  validate_input (L "list") answer = Ok true ->
  exists items,
    coerce (L "skills") answer = Some (VList items)
    /\ items = map strip (split_on ","%char (strip answer))
    /\ items <> []
    /\ Forall (fun item => item <> [] /\ strip item = item) items.
Proof. apply list_answer_items. Qed.

Lemma list_answer_stored_witness :
  exists items,
    coerce (L "skills") (L "  python ,go,  rust  ") = Some (VList items)
    /\ items = [L "python"; L "go"; L "rust"]
    /\ items <> []
    /\ Forall (fun item => item <> [] /\ strip item = item) items.
Proof.
  apply (list_answer_stored (L "  python ,go,  rust  ")). reflexivity.
Defined.

End Trimming_items.

(** ** The rewrites of a transcript, continued *)

Section More_on_normalisers.

Lemma lower_char_idem c : lower_char (lower_char c) = lower_char c.
Proof. each_char c. Qed.

Lemma lower_char_digit c : isdigit c = true -> lower_char c = c.
Proof. each_char c. Qed.

Lemma lower_idem s : lower (lower s) = lower s.
Proof.
  unfold lower. rewrite map_map. apply map_ext. apply lower_char_idem.
Qed.

Lemma lower_digits s : forallb isdigit s = true -> lower s = s.
Proof.
  induction s as [|c s IH]; [reflexivity|].
  simpl. intros H. apply andb_prop in H. destruct H as [Hc Hs].
  now rewrite (lower_char_digit _ Hc), (IH Hs).
Qed.

Lemma filter_isdigit_lower_same s :
  List.filter (fun char => isdigit char) (lower s)
  = List.filter (fun char => isdigit char) s.
Proof.
  induction s as [|c s IH]; [reflexivity|].
  simpl. rewrite isdigit_lower_char, IH.
  destruct (isdigit c) eqn:Hc; [|reflexivity].
  now rewrite (lower_char_digit _ Hc).
Qed.

Lemma forallb_filter_same (p : ascii -> bool) s :
  forallb p (List.filter p s) = true.
Proof.
  induction s as [|c s IH]; [reflexivity|].
  simpl. destruct (p c) eqn:Hc; [|exact IH]. simpl. now rewrite Hc.
Qed.

Lemma filter_fixed (p : ascii -> bool) s :
  forallb p s = true -> List.filter p s = s.
Proof.
  induction s as [|c s IH]; [reflexivity|].
  simpl. intros H. apply andb_prop in H. destruct H as [Hc Hs].
  now rewrite Hc, (IH Hs).
Qed.

Lemma filter_nonempty (p : ascii -> bool) s :
  existsb p s = true -> List.filter p s <> [].
Proof.
  induction s as [|c s IH]; [discriminate|].
  simpl. destruct (p c); [discriminate | exact IH].
Qed.

Lemma normalize_age_of_digits (t : str) :
  existsb isdigit t = true ->
  normalize_age t = List.filter isdigit t
  /\ str_isdigit (normalize_age t) = true.
Proof.
  intros H. apply filter_nonempty in H.
  assert (E : normalize_age t = List.filter isdigit t).
  { unfold normalize_age. rewrite filter_isdigit_lower_same.
    change (fun char => isdigit char) with isdigit.
    destruct (List.filter isdigit t); [now destruct H | reflexivity]. }
  split; [exact E|]. rewrite E. unfold str_isdigit.
  rewrite forallb_filter_same, andb_true_r.
  destruct (List.filter isdigit t); [now destruct H | reflexivity].
Qed.

(** A transcript in which a digit was heard is rewritten to its digits,
    in their order and nothing else; the result satisfies [isdigit]. *)
Theorem normalize_age_digits (t : str) :
  existsb isdigit t = true ->
  normalize_age t = List.filter isdigit t
  /\ str_isdigit (normalize_age t) = true.
Proof. apply normalize_age_of_digits. Qed.

Lemma normalize_age_digits_witness :
  normalize_age (L "I am 25 years old") = L "25"
  /\ str_isdigit (normalize_age (L "I am 25 years old")) = true.
Proof. apply (normalize_age_digits (L "I am 25 years old")). reflexivity. Defined.

(** Rewriting an age a second time changes nothing. *)
Theorem normalize_age_idempotent (t : str) :
  normalize_age (normalize_age t) = normalize_age t.
Proof.
  destruct (existsb isdigit t) eqn:H.
  - destruct (normalize_age_of_digits t H) as [E Hd]. rewrite E.
    unfold normalize_age.
    rewrite (lower_digits _ (forallb_filter_same isdigit t)).
    change (fun char => isdigit char) with isdigit.
    rewrite (filter_fixed _ _ (forallb_filter_same isdigit t)).
    rewrite E in Hd. unfold str_isdigit in Hd.
    apply andb_prop in Hd. destruct Hd as [Hne _].
    now rewrite Hne.
  - assert (Hno : forallb (fun c => negb (isdigit c)) t = true).
    { clear -H. induction t as [|c t IH]; [reflexivity|].
      simpl in *. apply orb_false_iff in H. destruct H as [Hc Ht].
      now rewrite Hc, IH. }
    rewrite (normalize_age_without_digits _ Hno).
    rewrite (normalize_age_without_digits _ (no_digit_lower _ Hno)).
    apply lower_idem.
Qed.

Lemma join_nil_cons x items : join [] (x :: items) = x ++ join [] items.
Proof. destruct items; simpl; [now rewrite app_nil_r | reflexivity]. Qed.

(** Splitting at white space and gluing the pieces drops the white
    space and nothing else. *)
Lemma join_split_ws s :
  join [] (split_ws s) = List.filter (fun c => negb (isspace c)) s.
Proof.
  induction s as [|c s IH]; [reflexivity|].
  cbn [split_ws List.filter].
  destruct (isspace c) eqn:Hc; simpl negb; cbv iota; [exact IH|].
  destruct s as [|d s]; [reflexivity|].
  destruct (isspace d) eqn:Hd.
  - rewrite join_nil_cons, IH. reflexivity.
  - destruct (split_ws (d :: s)) as [|item items] eqn:E.
    + rewrite <- IH. reflexivity.
    + rewrite join_nil_cons. rewrite join_nil_cons in IH.
      rewrite <- IH. reflexivity.
Qed.

(** The rewritten address holds no white space and no upper-case
    letter. *)
Theorem normalize_email_compact (t : str) :
  forallb (fun c => negb (isspace c)) (normalize_email t) = true
  /\ lower (normalize_email t) = normalize_email t.
Proof.
  unfold normalize_email. rewrite join_split_ws. split.
  - apply forallb_filter_same.
  - apply lower_fixed, forallb_filter.
    repeat (apply forallb_replace; [discriminate | reflexivity |]).
    apply lower_is_lower.
Qed.

(** The rewritten skills are in lower case and in the form the last
    step builds: splitting them at commas, trimming and joining gives
    them back. *)
Theorem normalize_skills_canonical (s : str) :
  comma_list (normalize_skills s) = normalize_skills s
  /\ lower (normalize_skills s) = normalize_skills s.
Proof.
  split.
  - rewrite normalize_skills_comma_list. apply comma_list_idem.
  - apply lower_fixed, normalize_skills_is_lower.
Qed.

(** Of the eight prompts only those for age, email and skills carry a
    marker: the transcripts of the other five questions are passed on
    as heard. *)
Theorem smart_text_by_question (i : nat) (field question field_type text : str) :
  nth_error questions i = Some (field, question, field_type) ->
  smart_text question text
  = if bool_decide (field = L "age") then normalize_age text
    else if bool_decide (field = L "email") then normalize_email text
    else if bool_decide (field = L "skills") then normalize_skills text
    else text.
Proof.
  intros H.
  do 8 (destruct i as [|i]; [injection H as <- <- <-; reflexivity|]).
  now destruct i.
Qed.

Lemma smart_text_by_question_witness :
  smart_text (L "What is your phone number?") (L "555 123 4567")
  = L "555 123 4567".
Proof.
  apply (smart_text_by_question 3 (L "phone") (L "What is your phone number?")
           (L "phone") (L "555 123 4567")).
  reflexivity.
Defined.

End More_on_normalisers.

(** ** The acquirer, continued *)

Section More_on_the_acquirer.

(** Failed attempts use up attempts and nothing else. *)
Lemma get_voice_input_after_failures prompt retries attempts rest :
  Forall failed_attempt attempts ->
  length attempts <= retries ->
  get_voice_input prompt retries (concat attempts ++ rest)
  = get_voice_input prompt (retries - length attempts) rest.
Proof.
  intros Hfailed. revert retries.
  induction Hfailed as [|attempt attempts Hattempt _ IH]; intros retries Hlen.
  - simpl. now rewrite Nat.sub_0_r.
  - destruct retries as [|k]; [simpl in Hlen; lia|].
    simpl in Hlen. assert (Hk : length attempts <= k) by lia.
    specialize (IH k Hk). simpl length. simpl Nat.sub.
    destruct Hattempt as [| |text reply Hreply]; cbn [concat app].
    + cbn [get_voice_input]. exact IH.
    + cbn [get_voice_input]. exact IH.
    + cbn [get_voice_input]. rewrite Hreply. exact IH.
Qed.

(** Once every attempt has failed, the answer is the next typed line. *)
Theorem retries_exhausted (prompt : str) (retries : nat)
    (attempts : list (list event)) (rest : list event) :
  Forall failed_attempt attempts ->
  length attempts = retries ->
  get_voice_input prompt retries (concat attempts ++ rest)
  = get_text_input prompt rest.
Proof.
  intros Hfailed Hlen.
  rewrite get_voice_input_after_failures by (try assumption; lia).
  rewrite Hlen, Nat.sub_diag. reflexivity.
Qed.

Lemma retries_exhausted_witness :
  get_voice_input (L "What is your full name?") 3
    (concat [[Listen UnknownValueError];
             [Listen (Transcript (L "jane dough")); Input (L "n")];
             [Listen WaitTimeoutError]]
     ++ [Input (L "Jane Doe"); Listen WaitTimeoutError])
  = Some (L "Jane Doe", [Listen WaitTimeoutError]).
Proof.
  apply (retries_exhausted (L "What is your full name?") 3
           [[Listen UnknownValueError];
            [Listen (Transcript (L "jane dough")); Input (L "n")];
            [Listen WaitTimeoutError]]
           [Input (L "Jane Doe"); Listen WaitTimeoutError]).
  - repeat constructor.
  - reflexivity.
Defined.

(** While attempts are left, a transcript the user confirms is the
    answer, rewritten for its question; what was heard and refused
    before plays no part. *)
Theorem confirmed_transcript (prompt : str) (retries : nat)
    (attempts : list (list event)) (text reply : str) (rest : list event) :
  Forall failed_attempt attempts ->
  length attempts < retries ->
  startswith (L "y") (lower reply) = true ->
  get_voice_input prompt retries
    (concat attempts ++ Listen (Transcript text) :: Input reply :: rest)
  = Some (smart_text prompt text, rest).
Proof.
  intros Hfailed Hlen Hreply.
  rewrite get_voice_input_after_failures by (try assumption; lia).
  destruct (retries - length attempts) as [|k] eqn:E; [lia|].
  cbn [get_voice_input]. now rewrite Hreply.
Qed.

Lemma confirmed_transcript_witness :
  get_voice_input (L "What are your skills? (separate with and)") 3
    (concat [[Listen (Transcript (L "pie thon")); Input (L "no")]]
     ++ Listen (Transcript (L "Python and Go")) :: Input (L "Yes")
        :: [Input (L "next")])
  = Some (L "python, go", [Input (L "next")]).
Proof.
  apply (confirmed_transcript (L "What are your skills? (separate with and)") 3
           [[Listen (Transcript (L "pie thon")); Input (L "no")]]
           (L "Python and Go") (L "Yes") [Input (L "next")]).
  - repeat constructor.
  - simpl. lia.
  - reflexivity.
Defined.

(** One call listens at most [retries] times and reads at most one
    typed line per attempt and one more for the fallback; the events it
    leaves are a tail of those it was given. *)
Theorem get_voice_input_bounded (prompt : str) (retries : nat)
    (events : list event) (answer : str) (rest : list event) :
  get_voice_input prompt retries events = Some (answer, rest) ->
  exists used,
    events = used ++ rest
    /\ count_listens used <= retries
    /\ 1 <= length used <= 2 * retries + 1.
Proof.
  revert events. induction retries as [|k IH]; intros events H.
  - cbn [get_voice_input] in H.
    destruct events as [|[line|r] events]; try discriminate.
    injection H as _ <-. exists [Input line]. simpl.
    repeat split; unfold count_listens; simpl; lia.
  - cbn [get_voice_input] in H.
    destruct events as [|[line|[text| | | ]] events]; try discriminate.
    + destruct events as [|[reply|r] events]; try discriminate.
      destruct (startswith (L "y") (lower reply)).
      * injection H as _ <-.
        exists [Listen (Transcript text); Input reply].
        repeat split; unfold count_listens; simpl; lia.
      * apply IH in H. destruct H as (used & -> & Hc & Hl).
        exists (Listen (Transcript text) :: Input reply :: used).
        unfold count_listens in *. simpl. repeat split; lia.
    + apply IH in H. destruct H as (used & -> & Hc & Hl).
      exists (Listen WaitTimeoutError :: used).
      unfold count_listens in *. simpl. repeat split; lia.
    + apply IH in H. destruct H as (used & -> & Hc & Hl).
      exists (Listen UnknownValueError :: used).
      unfold count_listens in *. simpl. repeat split; lia.
    + destruct events as [|[line|r] events]; try discriminate.
      injection H as _ <-. exists [Listen RequestError; Input line].
      repeat split; unfold count_listens; simpl; lia.
Qed.

Lemma get_voice_input_bounded_witness :
  exists used,
    [Listen WaitTimeoutError; Listen RequestError; Input (L "x"); Input (L "y")]
    = used ++ [Input (L "y")]
    /\ count_listens used <= 3
    /\ 1 <= length used <= 2 * 3 + 1.
Proof.
  apply (get_voice_input_bounded (L "Where are you located?") 3
           [Listen WaitTimeoutError; Listen RequestError;
            Input (L "x"); Input (L "y")]
           (L "x") [Input (L "y")]).
  reflexivity.
Defined.

Lemma strip_first s c t : strip s = c :: t -> isspace c = false.
Proof.
  unfold strip. destruct (lstrip_head s) as [E | (d & u & E & Hd)]; rewrite E.
  - discriminate.
  - rewrite (rstrip_cons _ _ Hd). now intros [= <- _].
Qed.

(** A typed answer arrives trimmed: no white space at its beginning or
    end, so trimming it again gives the same text. *)
Theorem get_text_input_trimmed (prompt : str) (events : list event)
    (answer : str) (rest : list event) :
  get_text_input prompt events = Some (answer, rest) ->
  strip answer = answer
  /\ (forall c t, answer = c :: t -> isspace c = false)
  /\ (forall t c, answer = t ++ [c] -> isspace c = false).
Proof.
  unfold get_text_input.
  destruct events as [|[line|r] events]; try discriminate.
  intros [= <- _]. split; [apply strip_idem|]. split.
  - intros c t. apply strip_first.
  - intros t c. apply strip_last.
Qed.

Lemma get_text_input_trimmed_witness :
  strip (L "Jane Doe") = L "Jane Doe"
  /\ (forall c t, L "Jane Doe" = c :: t -> isspace c = false)
  /\ (forall t c, L "Jane Doe" = t ++ [c] -> isspace c = false).
Proof.
  apply (get_text_input_trimmed (L "What is your full name?")
           [Input (L "  Jane Doe  ")] (L "Jane Doe") []).
  reflexivity.
Defined.

End More_on_the_acquirer.

(** ** The questionnaire loop, continued *)

Section More_on_the_wizard.

Lemma int_strip a : int (strip a) = int a.
Proof. unfold int. now rewrite strip_idem. Qed.

Lemma validate_number_int a :
  validate_input (L "number") a = Ok true ->
  exists n, int a = Some n /\ (0 <= n <= 99)%Z.
Proof.
  intros H. rewrite validate_input_number in H.
  destruct (strip a) as [|c v] eqn:E.
  { rewrite guarded_empty in H by exact E. discriminate. }
  rewrite guarded_nonempty in H by (rewrite E; discriminate).
  unfold validate_number in H.
  destruct (str_isdigit (strip a)); [|discriminate].
  rewrite int_strip in H.
  destruct (int a) as [n|]; [|discriminate].
  injection H as H. apply andb_prop in H. destruct H as [H0 H99].
  exists n. split; [reflexivity|]. lia.
Qed.





Lemma step_index st a : index st <= index (step st a).
Proof.
  destruct (step_cases st a) as [-> | (f & q & ft & v & _ & _ & _ & ->)];
    simpl; lia.
Qed.

(** A field is written once: the answers that come after its question
    leave it as it is. *)
Theorem earlier_fields_kept (st : state) (answers : list str) (i : nat)
    (field question field_type : str) :
  nth_error questions i = Some (field, question, field_type) ->
  i < index st ->
  dict_get field (profile (run_answers st answers))
  = dict_get field (profile st).
Proof.
  intros Hq. revert st. unfold run_answers.
  induction answers as [|a answers IH]; intros st Hi; [reflexivity|].
  simpl. rewrite IH by (pose proof (step_index st a); lia).
  destruct (step_cases st a) as [-> | (f & q & ft & v & Hq' & _ & _ & ->)];
    [reflexivity|].
  simpl. rewrite dict_get_set, bool_decide_eq_false_2; [reflexivity|].
  intros ->. pose proof (question_fields_distinct _ _ _ _ _ _ _ Hq Hq'). lia.
Qed.

Lemma earlier_fields_kept_witness :
  dict_get (L "name")
    (profile (run_answers (State 1 (dict_set (L "name") (VStr (L "Jane"))
                                      initial_profile))
                [L "29"; L "jane@x.com"; L "John"]))
  = Some (VStr (L "Jane")).
Proof.
  apply (earlier_fields_kept
           (State 1 (dict_set (L "name") (VStr (L "Jane")) initial_profile))
           [L "29"; L "jane@x.com"; L "John"] 0 (L "name")
           (L "What is your full name?") (L "text")).
  - reflexivity.
  - simpl. lia.
Defined.

Lemma run_answers_finished st answers :
  nth_error questions (index st) = None -> run_answers st answers = st.
Proof.
  intros H. unfold run_answers.
  induction answers as [|a answers IH]; [reflexivity|].
  simpl. unfold step at 2. now rewrite H.
Qed.

Lemma ask_text lines st :
  ask (length lines) false st (map Input lines)
  = match nth_error questions
            (index (run_answers st (map strip lines))) with
    | None => Some (run_answers st (map strip lines))
    | Some _ => None
    end.
Proof.
  revert st. induction lines as [|line lines IH]; intros st.
  - simpl. now destruct (nth_error questions (index st)) as [[[f q] ft]|].
  - cbn [length map ask].
    destruct (nth_error questions (index st)) as [[[f q] ft]|] eqn:E.
    + cbn [acquire get_text_input]. rewrite IH. reflexivity.
    + rewrite (run_answers_finished _ _ E), E. reflexivity.
Qed.

(** In text mode the session is the fold of [step] over the typed
    lines, trimmed: it completes exactly when that fold gets past the
    last question, with the record the fold built. *)
Theorem text_mode_session (reply : str) (lines : list str) (now : str)
    (fs : filesystem) :
  startswith (L "y") (lower reply) = false ->
  create_profile (Input reply :: map Input lines) now fs
  = let st := run_answers initial_state (map strip lines) in
    let p := dict_set (L "created_at") (VStr now) (profile st) in
    if index st =? length questions
    then Some (p, save_profile p default_filename fs)
    else None.
Proof.
  intros Hreply. unfold create_profile. rewrite Hreply.
  rewrite length_map, ask_text. cbv zeta.
  destruct (wizard_invariant_run (map strip lines)) as [Hle _].
  destruct (nth_error questions
              (index (run_answers initial_state (map strip lines))))
    as [q|] eqn:E.
  - assert (index (run_answers initial_state (map strip lines))
            < length questions) by (apply nth_error_Some; congruence).
    rewrite (proj2 (Nat.eqb_neq _ _)) by lia. reflexivity.
  - apply nth_error_None in E.
    rewrite (proj2 (Nat.eqb_eq _ _)) by lia. reflexivity.
Qed.

Lemma text_mode_session_witness :
  create_profile jane_session jane_time empty_filesystem
  = Some (jane_profile,
          save_profile jane_profile default_filename empty_filesystem).
Proof.
  exact (text_mode_session (L "n")
           [ L "Jane Doe"; L "twenty nine"; L "29"; L "jane@x.com";
             L "555-123-4567"; L "Engineer"; L "python, go"; L "BSc"; L "NYC" ]
           jane_time empty_filesystem eq_refl).
Defined.

(** Each question's field of a finished record holds an answer that
    passed the check of that question, in its stored shape. *)
Lemma completed_field events now fs p r i field question field_type :
  create_profile events now fs = Some (p, r) ->
  nth_error questions i = Some (field, question, field_type) ->
  exists a v,
    dict_get field p = Some v
    /\ validate_input field_type a = Ok true
    /\ coerce field a = Some v.
Proof.
  intros H Hq. apply create_profile_run in H.
  destruct H as (answers & Hidx & -> & _).
  destruct (wizard_invariant_run answers) as (_ & _ & _ & Hfields).
  specialize (Hfields i field question field_type Hq).
  assert (Hi : i < length questions) by (apply nth_error_Some; congruence).
  rewrite Hidx, (proj2 (Nat.ltb_lt _ _) Hi) in Hfields.
  destruct Hfields as (v & Hget & a & _ & Hv & Hc).
  exists a, v. split; [|now split].
  destruct (question_field _ _ _ _ Hq) as [_ Hne].
  now rewrite dict_get_set, bool_decide_eq_false_2.
Qed.

(** The age of a finished record is an integer from 0 to 99. *)
Theorem completed_age (events : list event) (now : str) (fs : filesystem)
    (p : dict) (r : result filesystem) :
  create_profile events now fs = Some (p, r) ->
  exists n, dict_get (L "age") p = Some (VInt n) /\ (0 <= n <= 99)%Z.
Proof.
  intros H.
  destruct (completed_field _ _ _ _ _ 1 _ _ _ H eq_refl)
    as (a & v & Hget & Hv & Hc).
  destruct (validate_number_int _ Hv) as (n & Hn & Hrange).
  change (coerce (L "age") a) with (option_map VInt (int a)) in Hc.
  rewrite Hn in Hc. injection Hc as <-. now exists n.
Qed.

Lemma completed_age_witness :
  exists n, dict_get (L "age") jane_profile = Some (VInt n)
            /\ (0 <= n <= 99)%Z.
Proof.
  apply (completed_age jane_session jane_time empty_filesystem jane_profile
           (save_profile jane_profile default_filename empty_filesystem)).
  vm_compute. reflexivity.
Defined.

(** The skills of a finished record are a non-empty list of non-empty
    texts without white space at either end. *)
Theorem completed_skills (events : list event) (now : str) (fs : filesystem)
    (p : dict) (r : result filesystem) :
  create_profile events now fs = Some (p, r) ->
  exists items,
    dict_get (L "skills") p = Some (VList items)
    /\ items <> []
    /\ Forall (fun item => item <> [] /\ strip item = item) items.
Proof.
  intros H.
  destruct (completed_field _ _ _ _ _ 5 _ _ _ H eq_refl)
    as (a & v & Hget & Hv & Hc).
  destruct (list_answer_items _ Hv) as (items & Hitems & _ & Hne & Hall).
  rewrite Hitems in Hc. injection Hc as <-. now exists items.
Qed.

Lemma completed_skills_witness :
  exists items,
    dict_get (L "skills") jane_profile = Some (VList items)
    /\ items <> []
    /\ Forall (fun item => item <> [] /\ strip item = item) items.
Proof.
  apply (completed_skills jane_session jane_time empty_filesystem jane_profile
           (save_profile jane_profile default_filename empty_filesystem)).
  vm_compute. reflexivity.
Defined.

(** Name, occupation, education and location of a finished record are
    texts of at least two characters once trimmed. *)
Theorem completed_text_fields (events : list event) (now : str)
    (fs : filesystem) (p : dict) (r : result filesystem) (field : str) :
  create_profile events now fs = Some (p, r) ->
  In field [L "name"; L "occupation"; L "education"; L "location"] ->
  exists s, dict_get field p = Some (VStr s) /\ 2 <= length (strip s).
Proof.
  intros H Hin.
  assert (Hq : exists i question,
             nth_error questions i = Some (field, question, L "text")
             /\ forall a, coerce field a = Some (VStr a)).
  { simpl in Hin. destruct Hin as [<- | [<- | [<- | [<- | []]]]].
    - exists 0. eexists. split; reflexivity.
    - exists 4. eexists. split; reflexivity.
    - exists 6. eexists. split; reflexivity.
    - exists 7. eexists. split; reflexivity. }
  destruct Hq as (i & question & Hq & Hcoerce).
  destruct (completed_field _ _ _ _ _ _ _ _ _ H Hq)
    as (a & v & Hget & Hv & Hc).
  rewrite Hcoerce in Hc. injection Hc as <-. exists a. split; [exact Hget|].
  rewrite validate_text_closed in Hv. injection Hv as Hv.
  now apply Nat.leb_le.
Qed.

Lemma completed_text_fields_witness :
  exists s, dict_get (L "education") jane_profile = Some (VStr s)
            /\ 2 <= length (strip s).
Proof.
  apply (completed_text_fields jane_session jane_time empty_filesystem
           jane_profile
           (save_profile jane_profile default_filename empty_filesystem)
           (L "education")).
  - vm_compute. reflexivity.
  - simpl. tauto.
Defined.

Lemma validate_email_shape x :
  validate_input (L "email") x = Ok true -> email_shape (strip x).
Proof.
  intros Hv. rewrite validate_input_email in Hv.
  destruct (strip x) as [|c v] eqn:E.
  { rewrite guarded_empty in Hv by exact E. discriminate. }
  rewrite guarded_nonempty in Hv by (rewrite E; discriminate).
  rewrite <- E. unfold validate_email in Hv.
  apply Ok_true_iff, matches_email_pattern in Hv.
  destruct Hv as (l & d & t & rest & H & [-> | ->] & Hrest).
  - exists l, d, t. now rewrite !app_nil_r in H.
  - exfalso.
    assert (Hsp : isspace newline = false).
    { apply (strip_last x (l ++ L "@" ++ d ++ L "." ++ t)).
      rewrite H, <- !app_assoc. reflexivity. }
    discriminate.
Qed.

(** The email of a finished record has, once trimmed, the shape the
    pattern describes. *)
Theorem completed_email (events : list event) (now : str) (fs : filesystem)
    (p : dict) (r : result filesystem) :
  create_profile events now fs = Some (p, r) ->
  exists s, dict_get (L "email") p = Some (VStr s) /\ email_shape (strip s).
Proof.
  intros H.
  destruct (completed_field _ _ _ _ _ 2 _ _ _ H eq_refl)
    as (a & v & Hget & Hv & Hc).
  change (coerce (L "email") a) with (Some (VStr a)) in Hc.
  injection Hc as <-. exists a. split; [exact Hget|].
  now apply validate_email_shape.
Qed.

Lemma completed_email_witness :
  exists s, dict_get (L "email") jane_profile = Some (VStr s)
            /\ email_shape (strip s).
Proof.
  apply (completed_email jane_session jane_time empty_filesystem jane_profile
           (save_profile jane_profile default_filename empty_filesystem)).
  vm_compute. reflexivity.
Defined.

End More_on_the_wizard.

(** ** The record store, continued *)

Section More_on_the_store.

Lemma path_of_not_dir filename : path_of filename <> L "profiles".
Proof.
  unfold path_of. intros H.
  rewrite <- (app_nil_r (L "profiles")) in H at 2.
  apply app_inv_head in H. discriminate.
Qed.


Lemma path_in_dirs filename fs :
  path_of filename ∈ {[ L "profiles" ]} ∪ dirs fs <-> path_of filename ∈ dirs fs.
Proof.
  rewrite elem_of_union, elem_of_singleton. split; [|tauto].
  intros [H | H]; [now destruct (path_of_not_dir filename) | exact H].
Qed.

Lemma save_profile_cases p filename fs :
  save_profile p filename fs
  = match files fs !! L "profiles" with
    | Some _ => Raise FileExistsError
    | None =>
        if bool_decide (path_of filename ∈ dirs fs)
        then Raise IsADirectoryError
        else Ok (Filesystem ({[ L "profiles" ]} ∪ dirs fs)
                   (<[ path_of filename := json_dump p ]> (files fs)))
    end.
Proof.
  unfold save_profile, mkdir.
  destruct (files fs !! L "profiles"); [reflexivity|].
  fold (path_of filename). unfold write_text. cbn [dirs files].
  destruct (bool_decide (path_of filename ∈ dirs fs)) eqn:E.
  - apply bool_decide_eq_true in E.
    now rewrite bool_decide_eq_true_2 by now apply path_in_dirs.
  - apply bool_decide_eq_false in E.
    rewrite bool_decide_eq_false_2; [reflexivity|].
    intros H. now apply E, path_in_dirs.
Qed.


(** Saving twice under one name leaves what saving the second record
    alone would have left: the later document replaces the earlier. *)
Theorem save_profile_last_wins (p1 p2 : dict) (filename : str)
    (fs fs1 : filesystem) :
  save_profile p1 filename fs = Ok fs1 ->
  save_profile p2 filename fs1 = save_profile p2 filename fs.
Proof.
  rewrite !save_profile_cases.
  destruct (files fs !! L "profiles") eqn:Hfile; [discriminate|].
  destruct (bool_decide (path_of filename ∈ dirs fs)) eqn:E; [discriminate|].
  intros [= <-]. cbn [dirs files].
  rewrite lookup_insert_ne by (apply path_of_not_dir). rewrite Hfile.
  apply bool_decide_eq_false in E.
  rewrite bool_decide_eq_false_2 by (intros H; now apply E, path_in_dirs).
  f_equal. f_equal; [|apply insert_insert_eq].
  apply subseteq_union_1_L, singleton_subseteq_l, elem_of_union_l.
  now apply elem_of_singleton.
Qed.

Lemma save_profile_last_wins_witness :
  save_profile jane_profile default_filename
    (Filesystem {[ L "profiles" ]}
       {[ path_of default_filename := json_dump initial_profile ]})
  = save_profile jane_profile default_filename empty_filesystem.
Proof.
  apply (save_profile_last_wins initial_profile jane_profile default_filename
           empty_filesystem).
  vm_compute. reflexivity.
Defined.










(** The record of a completed session keeps the nine keys of
    [__init__] in their order, and so do the key lines of its
    document. *)
Theorem completed_keys (events : list event) (now : str) (fs : filesystem)
    (p : dict) (r : result filesystem) :
  create_profile events now fs = Some (p, r) ->
  map fst p = map fst initial_profile
  /\ top_level_keys (json_dump p) = map fst initial_profile.
Proof.
  intros H. apply create_profile_run in H.
  destruct H as (answers & _ & -> & _).
  destruct (wizard_invariant_run answers) as (_ & Hkeys & _).
  assert (E : map fst (dict_set (L "created_at") (VStr now)
                         (profile (run_answers initial_state answers)))
              = map fst initial_profile).
  { rewrite dict_set_keys; [exact Hkeys|]. rewrite Hkeys. simpl. tauto. }
  split; [exact E|]. rewrite <- E. apply top_level_keys_dump.
  assert (HF : Forall (fun k => forallb plain k = true)
                 (map fst initial_profile)) by repeat constructor.
  rewrite <- E in HF. apply Forall_map in HF. exact HF.
Qed.

Lemma completed_keys_witness :
  map fst jane_profile = map fst initial_profile
  /\ top_level_keys (json_dump jane_profile) = map fst initial_profile.
Proof.
  apply (completed_keys jane_session jane_time empty_filesystem jane_profile
           (save_profile jane_profile default_filename empty_filesystem)).
  vm_compute. reflexivity.
Defined.

End More_on_the_store.

(** ** Validation of what was rewritten or split *)

Section More_on_answers.

Lemma startswith_app p s :
  startswith p s = true -> exists rest, s = p ++ rest.
Proof.
  revert s. induction p as [|a p IH]; intros s H; [now exists s|].
  destruct s as [|b s]; [discriminate|].
  simpl in H. apply andb_prop in H. destruct H as [Hab Hp].
  apply eqb_char_eq in Hab. subst b.
  destruct (IH s Hp) as (rest & ->). now exists rest.
Qed.

Lemma contains_app sub s :
  contains sub s = true -> exists before rest, s = before ++ sub ++ rest.
Proof.
  induction s as [|c s IH]; intros H.
  - simpl in H. rewrite orb_false_r in H.
    destruct (startswith_app _ _ H) as (rest & E). now exists [], rest.
  - cbn [contains] in H. apply orb_prop in H. destruct H as [H | H].
    + destruct (startswith_app _ _ H) as (rest & E). now exists [], rest.
    + destruct (IH H) as (before & rest & ->). now exists (c :: before), rest.
Qed.

Lemma validate_list_items x :
  validate_input (L "list") x = Ok true ->
  forallb (fun item => 0 <? length (strip item))
    (split_on ","%char (strip x)) = true.
Proof.
  intros Hv. rewrite validate_input_list in Hv.
  destruct (strip x) as [|c v] eqn:E.
  { rewrite guarded_empty in Hv by exact E. discriminate. }
  rewrite guarded_nonempty in Hv by (rewrite E; discriminate).
  rewrite E in Hv. now injection Hv.
Qed.

(** A list answer with a comma at its beginning or end, or with two
    commas in a row, is never accepted: it would have an empty item. *)
Theorem validate_list_commas (x : str) :
  validate_input (L "list") x = Ok true ->
  startswith (L ",") (strip x) = false
  /\ contains (L ",,") (strip x) = false
  /\ forall t, strip x <> t ++ L ",".
Proof.
  intros Hv. apply validate_list_items in Hv. split; [|split].
  - destruct (startswith (L ",") (strip x)) eqn:H; [|reflexivity].
    destruct (startswith_app _ _ H) as (rest & E). rewrite E in Hv.
    discriminate.
  - destruct (contains (L ",,") (strip x)) eqn:H; [|reflexivity].
    destruct (contains_app _ _ H) as (before & rest & E). rewrite E in Hv.
    change (before ++ L ",," ++ rest)
      with (before ++ ","%char :: (","%char :: rest)) in Hv.
    rewrite split_on_app, forallb_app in Hv.
    apply andb_prop in Hv. destruct Hv as [_ Hv]. discriminate.
  - intros t E. rewrite E in Hv.
    change (t ++ L ",") with (t ++ ","%char :: []) in Hv.
    rewrite split_on_app, forallb_app in Hv.
    apply andb_prop in Hv. destruct Hv as [_ Hv]. discriminate.
Qed.

Lemma validate_list_commas_witness :
  startswith (L ",") (strip (L " a, b ,c ")) = false
  /\ contains (L ",,") (strip (L " a, b ,c ")) = false
  /\ forall t, strip (L " a, b ,c ") <> t ++ L ",".
Proof. apply (validate_list_commas (L " a, b ,c ")). reflexivity. Defined.







End More_on_answers.
